(** * httpFetch: a shallow embedding of [src/httpFetch.ts]

    The module wraps the browser's [fetch]: it sends a request, classifies
    the response by its status code into an [AppResponse] or one of the
    error classes, and hands every failure to [interceptError].

    Modelling choices, all of them read off the source:

    - JavaScript values are the trees of [JsValue].  Objects that the module
      only builds and hands on (parsed bodies, header maps) are carried as
      values, [JObject]; objects that it assigns to or deletes from (the
      error instances, whose [body] is overwritten by [interceptError], the
      caller's query mapping and the two working objects of
      [buildQueryParams]) are cells of a store, reached through [JRef].
    - A promise that settles is a completion: fulfilled is [Normal],
      rejected is [Throw].  [.then] is the bind of the monad [M], [.catch]
      is [catch].
    - The side effects are fields of the state: the calls of
      [window.location.replace] and the calls of [console.error].
    - What the platform supplies ([fetch], [JSON.parse], [JSON.stringify],
      the build flag [DEBUG]) is a variable of the section [Platform].
    - A number is carried as an integer and stands for the Number nearest
      to it, which is what the literal denotes, [Infinity] beyond the
      largest one; fractions and [NaN] are not values of the model.
      Strings are sequences of bytes, the UTF-8 form of the text.  Arrays
      are values: the module reads the arrays it is given and never
      writes to them.
    - An object inherits from the prototype of its class.  The one
      assignment of the module through a key that it does not fix,
      [paramsAsArray[param] = params[param]], can reach the setter
      [__proto__] with an array, so a cell can also inherit from an
      array. *)

From Stdlib Require Import ZArith String Ascii List Bool Lia DecimalString.
From stdpp Require Import base numbers list strings.
Import ListNotations.

Local Open Scope string_scope.
Local Open Scope list_scope.
Local Open Scope Z_scope.
Local Set Warnings "-register-all".

(** ** Values *)

Definition loc := nat.

Inductive JsValue : Type :=
| JUndefined
| JNull
| JBool (b : bool)
| JNumber (n : Z)
| JString (s : string)
| JArray (elems : list JsValue)
| JObject (fields : list (string * JsValue))
| JError (name : string) (message : string)
| JHost (iface : string)
| JRef (l : loc).

(** [JError] is an error object of the platform, such as the [TypeError]
    that [fetch] rejects with; [JHost] is one of its other objects, of
    which the module only asks what they are: a [FormData], a [Blob], a
    [File].  A method of an object is such an object too; nothing here
    calls or prints one. *)

(** What an object inherits from: the prototype of a class declared at
    the end of the source, [Object.prototype] for a plain object, or the
    array that an assignment to [__proto__] made the prototype of a plain
    object. *)
Inductive Class : Type :=
| PlainObject
| AppError
| NotFoundError
| BadRequestError
| UnauthorizedError
| ArrayProto (elems : list JsValue).

Definition Class_eqb (c d : Class) : bool :=
  match c, d with
  | PlainObject, PlainObject
  | AppError, AppError
  | NotFoundError, NotFoundError
  | BadRequestError, BadRequestError
  | UnauthorizedError, UnauthorizedError => true
  | _, _ => false
  end.

(** [class X extends AppError] for the three named errors. *)
Definition extends (c : Class) : option Class :=
  match c with
  | NotFoundError | BadRequestError | UnauthorizedError => Some AppError
  | PlainObject | AppError | ArrayProto _ => None
  end.

(** The chain of the classes is at most two long; an array and the
    prototypes behind it are none of them. *)
Definition subclass (c target : Class) : bool :=
  Class_eqb c target ||
  match extends c with
  | Some p => Class_eqb p target
  | None => false
  end.

(** A cell of the store: what the object inherits from and its own
    enumerable properties, listed in the order the engine enumerates
    them. *)
Record Obj : Type := mkObj {
  class : Class;
  props : list (string * JsValue)
}.

(** ** Numbers as text

    [Number::toString] prints the shortest decimal that reads back as the
    same Number, in full up to 21 digits and with an exponent beyond. *)

Definition Z_to_string (n : Z) : string := NilZero.string_of_int (Z.to_int n).

(** The Number nearest to a natural number, ties to the even mantissa of
    53 bits; [None] is [Infinity]. *)
Definition nearest_double (a : Z) : option Z :=
  if a <? 2 ^ 53 then Some a
  else
    let shift := Z.log2 a - 52 in
    let q := a / 2 ^ shift in
    let r := a mod 2 ^ shift in
    let half := 2 ^ (shift - 1) in
    let q' := if (half <? r) || ((r =? half) && Z.odd q) then q + 1 else q in
    let x := q' * 2 ^ shift in
    if x <? 2 ^ 1024 then Some x else None.

Definition reads_back (x v : Z) : bool :=
  match nearest_double v with
  | Some y => y =? x
  | None => false
  end.

(** The decimal of [k] significant digits that reads back as [x], the
    closest one when there are two. *)
Definition shortest_with (x : Z) (k : nat) : option Z :=
  let D := Z.of_nat (String.length (Z_to_string x)) in
  let scale := 10 ^ Z.max 0 (D - Z.of_nat k) in
  let lo := x / scale * scale in
  let hi := lo + scale in
  match reads_back x lo, reads_back x hi with
  | true, true =>
      Some (if x - lo <? hi - x then lo
            else if hi - x <? x - lo then hi
            else if Z.even (lo / scale) then lo else hi)
  | true, false => Some lo
  | false, true => Some hi
  | false, false => None
  end.

(** Seventeen digits tell every Number from its neighbours. *)
Definition shortest (x : Z) : Z :=
  match omap (shortest_with x) (seq 1 17) with
  | v :: _ => v
  | [] => x
  end.

Fixpoint strip_zeros (s : string) : string :=
  match s with
  | EmptyString => EmptyString
  | String c s' =>
      match strip_zeros s' with
      | EmptyString => if Ascii.eqb c "0" then EmptyString else String c EmptyString
      | rest => String c rest
      end
  end.

Definition Number_toString (n : Z) : string :=
  if n =? 0 then "0"
  else
    let sign := if n <? 0 then "-" else "" in
    match nearest_double (Z.abs n) with
    | None => sign +:+ "Infinity"
    | Some x =>
        let v := if x <? 2 ^ 53 then x else shortest x in
        let digits := Z_to_string v in
        let D := Z.of_nat (String.length digits) in
        if D <=? 21 then sign +:+ digits
        else
          match strip_zeros digits with
          | String d rest =>
              sign +:+ String d (if String.eqb rest "" then "" else "." +:+ rest)
                   +:+ "e+" +:+ Z_to_string (D - 1)
          | EmptyString => "0"
          end
    end.

(** ** Property lists *)

Definition is_digit (c : ascii) : bool :=
  let n := N_of_ascii c in ((48 <=? n) && (n <=? 57))%N.

(** The number that the leading digits of [s] spell, after [acc]. *)
Fixpoint decimal_value (s : string) (acc : Z) : Z :=
  match s with
  | String c s' =>
      if is_digit c
      then decimal_value s' (10 * acc + Z.of_N (N_of_ascii c) - 48)
      else acc
  | EmptyString => acc
  end.

(** A key is an array index when it is the canonical decimal spelling of
    an integer from 0 to 2^32 - 2. *)
Definition array_index (k : string) : option Z :=
  let n := decimal_value k 0 in
  if String.eqb (Z_to_string n) k && (n <=? 4294967294) then Some n else None.

(** The engine enumerates the array indices first, in ascending order,
    and then the other keys in the order of their creation.
    [enumerated_before k k'] says that a new key [k] goes before a present
    key [k']. *)
Definition enumerated_before (k k' : string) : bool :=
  match array_index k, array_index k' with
  | Some i, Some j => i <? j
  | Some _, None => true
  | None, _ => false
  end.

Fixpoint prop_get (k : string) (ps : list (string * JsValue)) : JsValue :=
  match ps with
  | [] => JUndefined
  | (k', v) :: ps' => if String.eqb k k' then v else prop_get k ps'
  end.

Fixpoint prop_has (k : string) (ps : list (string * JsValue)) : bool :=
  match ps with
  | [] => false
  | (k', _) :: ps' => String.eqb k k' || prop_has k ps'
  end.

Fixpoint prop_replace (k : string) (v : JsValue) (ps : list (string * JsValue))
  : list (string * JsValue) :=
  match ps with
  | [] => []
  | (k', v') :: ps' =>
      if String.eqb k k' then (k, v) :: ps' else (k', v') :: prop_replace k v ps'
  end.

Fixpoint prop_add (k : string) (v : JsValue) (ps : list (string * JsValue))
  : list (string * JsValue) :=
  match ps with
  | [] => [(k, v)]
  | (k', v') :: ps' =>
      if enumerated_before k k' then (k, v) :: ps else (k', v') :: prop_add k v ps'
  end.

(** Give the property [k] the value [v]: a present key keeps its place,
    a new one takes its place in the enumeration order. *)
Definition prop_set (k : string) (v : JsValue) (ps : list (string * JsValue))
  : list (string * JsValue) :=
  if prop_has k ps then prop_replace k v ps else prop_add k v ps.

(** [delete o[k]]. *)
Fixpoint prop_delete (k : string) (ps : list (string * JsValue))
  : list (string * JsValue) :=
  match ps with
  | [] => []
  | (k', v') :: ps' =>
      if String.eqb k k' then prop_delete k ps' else (k', v') :: prop_delete k ps'
  end.

(** ** Conversions of the language *)

Definition join_with (sep : string) (parts : list string) : string :=
  match parts with
  | [] => ""
  | p :: ps => fold_left (fun acc q => acc +:+ sep +:+ q) ps p
  end.

(** [String(v)], where it returns.  An array prints its elements
    separated by commas, with nothing for [null] and [undefined]; an error
    prints its name and its message; every other object prints its tag,
    as an object does that inherits [toString] from [Object.prototype].
    How an object prints that inherits from an array is not modelled: the
    module has one, [paramsAsArray], and never prints it. *)
Fixpoint ToString (v : JsValue) : string :=
  match v with
  | JUndefined => "undefined"
  | JNull => "null"
  | JBool true => "true"
  | JBool false => "false"
  | JNumber n => Number_toString n
  | JString s => s
  | JArray elems =>
      join_with ","
        (map (fun e => match e with
                       | JUndefined | JNull => ""
                       | _ => ToString e
                       end) elems)
  | JObject _ => "[object Object]"
  | JError name message =>
      if String.eqb message "" then name
      else if String.eqb name "" then message
      else name +:+ ": " +:+ message
  | JHost iface => "[object " +:+ iface +:+ "]"
  | JRef _ => "[object Object]"
  end.

(** Whether [String(v)] returns.  An object that has a property
    [toString] of its own cannot be converted: the property is no
    function, and the [valueOf] that the object inherits returns the
    object, so the conversion throws a [TypeError].  An array converts
    its elements. *)
Fixpoint printable (h : list Obj) (v : JsValue) : bool :=
  match v with
  | JArray elems => forallb (printable h) elems
  | JObject fields => negb (prop_has "toString" fields)
  | JRef l =>
      match h !! l with
      | Some o => negb (prop_has "toString" (props o))
      | None => true
      end
  | _ => true
  end.

(** *** The code units of a string

    A string of the language is a sequence of UTF-16 code units.  A
    character of one to three bytes of UTF-8 is one code unit; a character
    of four bytes is a pair of surrogates.  Half a pair has no UTF-8 form
    of its own: it is carried by U+FFFD, which is what [URLSearchParams],
    the one reader of such a string in this module, turns it into. *)

Definition utf8_width (c : ascii) : nat :=
  let n := N_of_ascii c in
  if (n <? 192)%N then 1%nat
  else if (n <? 224)%N then 2%nat
  else if (n <? 240)%N then 3%nat
  else 4%nat.

Fixpoint characters (fuel : nat) (s : string) : list string :=
  match fuel, s with
  | S fuel', String c _ =>
      let w := utf8_width c in
      substring 0 w s :: characters fuel' (substring w (String.length s - w) s)
  | _, _ => []
  end.

Definition replacement_character : string :=
  String (ascii_of_N 239) (String (ascii_of_N 191) (String (ascii_of_N 189) EmptyString)).

(** [s[0], s[1], ...]: the strings of one code unit. *)
Definition string_chars (s : string) : list JsValue :=
  flat_map (fun ch =>
              if (String.length ch =? 4)%nat
              then [JString replacement_character; JString replacement_character]
              else [JString ch])
           (characters (String.length s) s).

(** [s.length]. *)
Definition utf16_length (s : string) : Z := Z.of_nat (length (string_chars s)).

(** Truthiness, as [if (v)] tests it. *)
Definition truthy (v : JsValue) : bool :=
  match v with
  | JUndefined | JNull => false
  | JBool b => b
  | JNumber n => negb (n =? 0)
  | JString s => negb (String.eqb s "")
  | JArray _ | JObject _ | JError _ _ | JHost _ | JRef _ => true
  end.

Definition Array_isArray (v : JsValue) : bool :=
  match v with
  | JArray _ => true
  | _ => false
  end.

(** ** Constants of the module *)

Module Status.
Definition Ok : Z := 200.
Definition Unassigned : Z := 299.
Definition BadRequest : Z := 400.
Definition Unauthorized : Z := 401.
Definition NotFound : Z := 404.
End Status.

Module Methods.
Definition Get : string := "GET".
Definition Post : string := "POST".
Definition Put : string := "PUT".
Definition Delete : string := "DELETE".
End Methods.

(** The exported object, as it is declared. *)
Definition Headers : JsValue :=
  JObject [("Accept", JString "application/json");
           ("Content-Type", JString "application/json");
           ("X-Requested-With", JString "fetch")].

Inductive Credentials : Type :=
| SameOrigin
| Include
| Omit.

(** ** Completions, the state and the monad *)

Inductive Completion (A : Type) : Type :=
| Normal (a : A)
| Throw (reason : JsValue).

Arguments Normal {A} a.
Arguments Throw {A} reason.

(** One call of [console.error]: the argument, and the object it denoted
    at that moment, which is what the console renders. *)
Record LogEntry : Type := mkLog {
  logged : JsValue;
  rendered : option Obj
}.

Record State : Type := mkState {
  heap : list Obj;
  navigations : list string;
  console : list LogEntry
}.

Definition set_heap (h : list Obj) (st : State) : State :=
  mkState h (navigations st) (console st).

Definition M (A : Type) : Type := State -> Completion A * State.

Definition ret {A} (a : A) : M A := fun st => (Normal a, st).

Definition bind {A B} (m : M A) (k : A -> M B) : M B :=
  fun st =>
    match m st with
    | (Normal a, st') => k a st'
    | (Throw e, st') => (Throw e, st')
    end.

Definition throw {A} (e : JsValue) : M A := fun st => (Throw e, st).

(** [p.catch(h)], and [try { p } catch (e) { h(e) }]. *)
Definition catch {A} (m : M A) (h : JsValue -> M A) : M A :=
  fun st =>
    match m st with
    | (Normal a, st') => (Normal a, st')
    | (Throw e, st') => h e st'
    end.

(** A promise that is already settled. *)
Definition settled {A} (c : Completion A) : M A := fun st => (c, st).

Declare Scope js_scope.
Delimit Scope js_scope with js.
Notation "x <- c ;; k" := (bind c (fun x => k))
  (at level 100, c at next level, right associativity) : js_scope.
Notation "c ;; k" := (bind c (fun _ => k))
  (at level 100, right associativity) : js_scope.
Local Open Scope js_scope.

Definition when (b : bool) (m : M unit) : M unit := if b then m else ret tt.

(** A loop over a list that updates the local [acc]. *)
Fixpoint forEach {A B} (xs : list A) (acc : B) (f : A -> B -> M B) : M B :=
  match xs with
  | [] => ret acc
  | x :: xs' => acc' <- f x acc ;; forEach xs' acc' f
  end.

(** *** Operations on the store *)

Definition alloc (o : Obj) : M JsValue :=
  fun st => (Normal (JRef (length (heap st))), set_heap (heap st ++ [o]) st).

Definition deref (h : list Obj) (v : JsValue) : option Obj :=
  match v with
  | JRef l => h !! l
  | _ => None
  end.

(** [v instanceof C], for a class [C] of this module. *)
Definition instance_of (h : list Obj) (v : JsValue) (C : Class) : bool :=
  match deref h v with
  | Some o => subclass (class o) C
  | None => false
  end.

Definition instanceof (v : JsValue) (C : Class) : M bool :=
  fun st => (Normal (instance_of (heap st) v C), st).

Definition TypeError (message : string) : JsValue := JError "TypeError" message.

(** [v.constructor === C]: reading a property of [undefined] or [null]
    throws; the constructor of a value that is no instance of a class of
    this module is none of them. *)
Definition constructor_is (v : JsValue) (C : Class) : M bool :=
  fun st =>
    match v with
    | JUndefined | JNull =>
        (Throw (TypeError "Cannot read properties of undefined"), st)
    | _ =>
        (Normal match deref (heap st) v with
                | Some o => Class_eqb (class o) C
                | None => false
                end, st)
    end.

(** [o[k] = x] on a cell.  Unless the object has a property of that name
    of its own, the key [__proto__] reaches the setter that every object
    inherits from [Object.prototype]: it makes an array the prototype of
    the object and ignores a primitive.  Every other key, and an own
    [__proto__], is an ordinary property: a present key keeps its place
    and a new one takes its place in the enumeration order.  Only an array
    can become a prototype here: the module assigns through a key that it
    does not fix only what [Array.isArray] accepted. *)
Definition assign (k : string) (x : JsValue) (o : Obj) : Obj :=
  if String.eqb k "__proto__" && negb (prop_has k (props o)) then
    match x with
    | JArray elems => mkObj (ArrayProto elems) (props o)
    | _ => o
    end
  else mkObj (class o) (prop_set k x (props o)).

(** Replace the object behind a reference.  A write to a property of
    [undefined], of [null] or, in the strict code of a module, of a
    primitive throws a [TypeError].  An object that is carried as a value
    has no cell to write to: the module builds such objects and never
    assigns to them, and the properties below about a write are stated
    for references. *)
Definition update (v : JsValue) (f : Obj -> Obj) : M unit :=
  fun st =>
    match v with
    | JRef l =>
        (Normal tt,
         match heap st !! l with
         | Some o => set_heap (<[l := f o]> (heap st)) st
         | None => st
         end)
    | JUndefined | JNull =>
        (Throw (TypeError "Cannot set properties of undefined"), st)
    | JBool _ | JNumber _ | JString _ =>
        (Throw (TypeError "Cannot create property on a primitive"), st)
    | JArray _ | JObject _ | JError _ _ | JHost _ => (Normal tt, st)
    end.

(** [v[k] = x]. *)
Definition set (v : JsValue) (k : string) (x : JsValue) : M unit :=
  update v (assign k x).

(** [delete v[k]]: only an own property goes.  Nothing can be deleted
    from [undefined] and [null], nor, in strict code, a code unit or the
    length from a string. *)
Definition delete_ (v : JsValue) (k : string) : M unit :=
  fun st =>
    match v with
    | JRef l =>
        (Normal tt,
         match heap st !! l with
         | Some o =>
             set_heap (<[l := mkObj (class o) (prop_delete k (props o))]> (heap st)) st
         | None => st
         end)
    | JUndefined | JNull =>
        (Throw (TypeError "Cannot convert undefined or null to object"), st)
    | JString s =>
        if String.eqb k "length" ||
           match array_index k with
           | Some i => i <? utf16_length s
           | None => false
           end
        then (Throw (TypeError "Cannot delete property of a string"), st)
        else (Normal tt, st)
    | _ => (Normal tt, st)
    end.

(** *** The two effects *)

Definition window_location_replace (url : string) : M unit :=
  fun st =>
    (Normal tt, mkState (heap st) (navigations st ++ [url]) (console st)).

Definition console_error (v : JsValue) : M unit :=
  fun st =>
    (Normal tt,
     mkState (heap st) (navigations st)
             (console st ++ [mkLog v (deref (heap st) v)])).

(** ** The response classes *)

(** A parameter declared [x = null] takes [null] when the argument is
    omitted or [undefined]. *)
Definition default_null (v : JsValue) : JsValue :=
  match v with
  | JUndefined => JNull
  | _ => v
  end.

(** [new C(body, headers)] for [AppError] and its three subclasses, whose
    constructors only pass their arguments up. *)
Definition new_error (C : Class) (body headers : JsValue) : M JsValue :=
  alloc (mkObj C [("body", default_null body); ("headers", default_null headers)]).

Record AppResponse : Type := mkAppResponse {
  body : JsValue;
  headers : JsValue
}.

Definition new_AppResponse (body headers : JsValue) : AppResponse :=
  mkAppResponse (default_null body) (default_null headers).

(** [new Result(succeeded, payload, error)]; an omitted argument is
    [undefined]. *)
Record Result : Type := mkResult {
  succeeded : bool;
  payload : JsValue;
  error : JsValue
}.

Definition new_Result (succeeded : bool) (payload error : JsValue) : Result :=
  mkResult succeeded payload error.

(** A field is absent when it holds [undefined] or [null]. *)
Definition absent (v : JsValue) : bool :=
  match v with
  | JUndefined | JNull => true
  | _ => false
  end.

(** ** [URLSearchParams] *)

(** The list of name and value pairs of a [URLSearchParams]. Strings are
    sequences of bytes, read as UTF-8, so that the serializer of the URL
    standard works on them byte by byte. *)
Definition URLSearchParams : Type := list (string * string).

(** The conversion of an argument to a string of the interface. *)
Definition ToUSVString (v : JsValue) : M string :=
  fun st =>
    if printable (heap st) v then (Normal (ToString v), st)
    else (Throw (TypeError "Cannot convert object to primitive value"), st).

Definition URLSearchParams_append (sp : URLSearchParams) (name : string)
  (value : JsValue) : M URLSearchParams :=
  text <- ToUSVString value ;;
  ret (sp ++ [(name, text)]).

(** The bytes that the [application/x-www-form-urlencoded] serializer
    leaves alone: the ASCII letters and digits, and [* - . _]. *)
Definition urlencoded_unreserved (c : ascii) : bool :=
  let n := N_of_ascii c in
  ((48 <=? n) && (n <=? 57) || (65 <=? n) && (n <=? 90) ||
   (97 <=? n) && (n <=? 122) ||
   (n =? 42) || (n =? 45) || (n =? 46) || (n =? 95))%N.

Definition hex_digit (n : N) : ascii :=
  (if n <? 10 then ascii_of_N (48 + n) else ascii_of_N (55 + n))%N.

Definition percent_encode (c : ascii) : string :=
  let n := N_of_ascii c in
  String "%" (String (hex_digit (n / 16)) (String (hex_digit (n mod 16)) "")).

Fixpoint urlencode (s : string) : string :=
  match s with
  | EmptyString => ""
  | String c s' =>
      (if urlencoded_unreserved c then String c ""
       else if Ascii.eqb c " " then "+"
       else percent_encode c) +:+ urlencode s'
  end.

Definition URLSearchParams_toString (sp : URLSearchParams) : string :=
  join_with "&" (map (fun '(k, v) => urlencode k +:+ "=" +:+ urlencode v) sp).

(** ** Objects as records of properties *)

(** Define the properties of [src] on [target] one after the other, as the
    spread [{ ...src }] does: it defines every key, [__proto__] too, as an
    own property. *)
Definition assign_all (src target : list (string * JsValue)) : list (string * JsValue) :=
  fold_left (fun o '(k, v) => prop_set k v o) src target.

Definition indexed (vs : list JsValue) : list (string * JsValue) :=
  imap (fun i v => (Z_to_string (Z.of_nat i), v)) vs.

(** The own enumerable properties of a value: those of the cell behind a
    reference, the fields of an object, the elements of an array and the
    code units of a string under their indices, none for the rest. *)
Definition own_props (h : list Obj) (v : JsValue) : list (string * JsValue) :=
  match v with
  | JRef l =>
      match h !! l with
      | Some o => props o
      | None => []
      end
  | JObject fields => fields
  | JArray elems => indexed elems
  | JString s => indexed (string_chars s)
  | _ => []
  end.

(** [{ ...v }]: a new plain object with the own properties of [v]. *)
Definition spread (v : JsValue) : M JsValue :=
  fun st => alloc (mkObj PlainObject (assign_all (own_props (heap st) v) [])) st.

(** *** What a cell inherits

    The prototypes of the classes and [Object.prototype] have no
    enumerable property.  An array that is a prototype gives its elements
    under their indices, which are enumerable, and its [length]. *)

Definition inherited_keys (C : Class) : list string :=
  match C with
  | ArrayProto elems => map fst (indexed elems)
  | _ => []
  end.

Definition inherited_get (C : Class) (k : string) : JsValue :=
  match C with
  | ArrayProto elems =>
      if String.eqb k "length" then JNumber (Z.of_nat (length elems))
      else prop_get k (indexed elems)
  | _ => JUndefined
  end.

(** [o[k]] on a cell: the own property, or else the inherited one.  The
    methods of the built-in prototypes are no values of the model: the
    module reads a name that is not a key of the object only after it has
    deleted the key, to pass the value to [Array.isArray], and none of
    those methods is an array. *)
Definition cell_get (k : string) (o : Obj) : JsValue :=
  if prop_has k (props o) then prop_get k (props o)
  else inherited_get (class o) k.

(** Whether [for ... in] still finds [k] in the object. *)
Definition cell_has (k : string) (o : Obj) : bool :=
  prop_has k (props o) || existsb (String.eqb k) (inherited_keys (class o)).

(** The keys that [for ... in] visits: the own ones in their order, then
    the inherited ones that no own key hides. *)
Definition cell_keys (o : Obj) : list string :=
  map fst (props o) ++
  List.filter (fun k => negb (prop_has k (props o))) (inherited_keys (class o)).

Definition get (o : JsValue) (k : string) : M JsValue :=
  fun st =>
    (Normal match o with
            | JRef l =>
                match heap st !! l with
                | Some c => cell_get k c
                | None => JUndefined
                end
            | _ => prop_get k (own_props (heap st) o)
            end, st).

Definition enumerable_keys (o : JsValue) : M (list string) :=
  fun st =>
    (Normal match o with
            | JRef l =>
                match heap st !! l with
                | Some c => cell_keys c
                | None => []
                end
            | _ => map fst (own_props (heap st) o)
            end, st).

Definition has (o : JsValue) (k : string) : M bool :=
  fun st =>
    (Normal match o with
            | JRef l =>
                match heap st !! l with
                | Some c => cell_has k c
                | None => false
                end
            | _ => prop_has k (own_props (heap st) o)
            end, st).

(** [for (let k in o) body]: the keys are those that [o] has when the loop
    starts, and a key deleted before its turn is skipped.  [acc] carries
    the locals that the body updates. *)
Fixpoint for_in_keys {A} (o : JsValue) (keys : list string) (acc : A)
  (body : string -> A -> M A) : M A :=
  match keys with
  | [] => ret acc
  | k :: keys' =>
      present <- has o k ;;
      acc' <- (if present : bool then body k acc else ret acc) ;;
      for_in_keys o keys' acc' body
  end.

Definition for_in {A} (o : JsValue) (acc : A) (body : string -> A -> M A) : M A :=
  keys <- enumerable_keys o ;;
  for_in_keys o keys acc body.

(** *** [if (v.length) v.forEach(f)]

    The elements that the statement passes to [f], in their order: none
    when the length is falsy.  Reading the length of [undefined] or of
    [null] throws, and so does the call of a [forEach] that is no
    function: a string, and an object that has a length of its own, have
    none.  A number, a boolean, an error, a [FormData] and a [Blob] have
    no length.  An object that inherits from an array inherits its
    [forEach], which visits the indices below the length that the object
    has or inherits. *)

(** [ToLength] of a number, of a boolean and of the decimal spelling of
    a natural number.  A value that converts to [NaN] counts as zero, and
    so does every other value here. *)
Definition ToLength (v : JsValue) : Z :=
  match v with
  | JNumber n => Z.min (Z.max n 0) (2 ^ 53 - 1)
  | JBool true => 1
  | JString s =>
      if negb (String.eqb s "") && String.eqb (Z_to_string (decimal_value s 0)) s
      then Z.min (decimal_value s 0) (2 ^ 53 - 1)
      else 0
  | _ => 0
  end.

Fixpoint insert_sorted (i : Z) (l : list Z) : list Z :=
  match l with
  | [] => [i]
  | j :: l' =>
      if i <? j then i :: l
      else if i =? j then l
      else j :: insert_sorted i l'
  end.

(** A key that is the canonical decimal spelling of a natural number. *)
Definition integer_key (k : string) : option Z :=
  let n := decimal_value k 0 in
  if String.eqb (Z_to_string n) k then Some n else None.

(** The integer keys that a cell has or inherits, in ascending order. *)
Definition cell_indices (o : Obj) : list Z :=
  fold_right insert_sorted []
    (omap integer_key (map fst (props o) ++ inherited_keys (class o))).

Definition cell_forEach_if_length (o : Obj) : Completion (list JsValue) :=
  let len := cell_get "length" o in
  if truthy len then
    match class o with
    | ArrayProto _ =>
        if prop_has "forEach" (props o)
        then Throw (TypeError "forEach is not a function")
        else Normal (map (fun i => cell_get (Z_to_string i) o)
                         (List.filter (fun i => i <? ToLength len) (cell_indices o)))
    | _ => Throw (TypeError "forEach is not a function")
    end
  else Normal [].

Definition forEach_if_length (v : JsValue) : M (list JsValue) :=
  fun st =>
    (match v with
     | JUndefined | JNull =>
         Throw (TypeError "Cannot read properties of undefined (reading 'length')")
     | JBool _ | JNumber _ | JError _ _ | JHost _ => Normal []
     | JString s =>
         if String.eqb s "" then Normal []
         else Throw (TypeError "forEach is not a function")
     | JArray elems => Normal elems
     | JObject fields =>
         if truthy (prop_get "length" fields)
         then Throw (TypeError "forEach is not a function")
         else Normal []
     | JRef l =>
         match heap st !! l with
         | Some o => cell_forEach_if_length o
         | None => Normal []
         end
     end, st).

(** [new URLSearchParams(o)] from a record: every own property, its value
    converted to a string. *)
Definition new_URLSearchParams (o : JsValue) : M URLSearchParams :=
  fun st =>
    forEach (own_props (heap st) o) []
            (fun '(k, v) sp => URLSearchParams_append sp k v) st.

(** ** Requests and responses of the transport *)

Record RequestInit : Type := mkInit {
  init_method : string;
  init_credentials : Credentials;
  init_headers : JsValue;
  init_body : JsValue
}.

(** What [fetch] resolves to: the status, the header collection in its
    iteration order, and the promise that [text()] returns. *)
Record Response : Type := mkResponse {
  status : Z;
  response_headers : list (string * string);
  text : Completion string
}.

(** ** The authorization header *)

Module AuthorizationType.
Definition Bearer : string := "bearer ".
Definition Basic : string := "basic ".
End AuthorizationType.

(** [headers['Authorization'] = `${type}${value}`], on a headers object
    of the store: the caller builds it, passes it here and then to
    [getAsync].  The exported [Headers] is a value of the model: a call
    on it, which changes what every later request sends, is not
    followed. *)
Definition addAuthorization (headers : JsValue) (type value : string) : M unit :=
  set headers "Authorization" (JString (type +:+ value)).

(** ** The module *)

Section Platform.

(** The build flag. *)
Variable DEBUG : bool.

(** [JSON.parse(text)]: the value, or the [SyntaxError] it throws. *)
Variable JSON_parse : string -> Completion JsValue.

(** [JSON.stringify(value)]: a string or [undefined], or what it throws:
    a [TypeError] for a [BigInt] and for a cyclic value, and whatever a
    [toJSON] of the value throws. *)
Variable JSON_stringify : JsValue -> Completion JsValue.

(** [fetch(url, init)], settled: the response, or the fault it rejects
    with. *)
Variable fetch : string -> RequestInit -> Completion Response.

Definition interceptError (error : JsValue) : M Result :=
  isUnauthorized <- instanceof error UnauthorizedError ;;
  when isUnauthorized (window_location_replace "/") ;;
  isBase <- (if negb DEBUG then constructor_is error AppError else ret false) ;;
  when isBase (set error "body" (JString "Technical error")) ;;
  console_error error ;;
  ret (new_Result false JNull error).

Definition isError (response : Response) : bool :=
  (status response <? Status.Ok) || (status response >? Status.Unassigned).

Definition parseBody (bodyText : string) : M JsValue :=
  let body := JObject [] in
  catch
    (settled (JSON_parse bodyText))
    (fun _ =>
       if truthy (JString bodyText)
       then ret (JObject [("bodyText", JString bodyText)])
       else ret body).

(** A [File] is a [Blob]. *)
Definition stringifyBody (body : JsValue) : Completion JsValue :=
  match body with
  | JHost "FormData" | JHost "Blob" | JHost "File" => Normal body
  | _ => JSON_stringify body
  end.

(** [headersObject[key] = value] for every header: an assignment, so a
    header named [__proto__] reaches the setter, which ignores a string. *)
Definition readHeaders (headers : list (string * string)) : JsValue :=
  JObject (fold_left (fun headersObject '(key, value) =>
                        props (assign key (JString value)
                                      (mkObj PlainObject headersObject)))
                     headers []).

Definition handleExpectedError (error : Response) (headers : JsValue)
  : M AppResponse :=
  bodyText <- settled (text error) ;;
  body <- parseBody bodyText ;;
  if status error =? Status.BadRequest then
    e <- new_error BadRequestError body headers ;; throw e
  else if status error =? Status.Unauthorized then
    e <- new_error UnauthorizedError body headers ;; throw e
  else if status error =? Status.NotFound then
    e <- new_error NotFoundError body headers ;; throw e
  else
    e <- new_error AppError body headers ;; throw e.

Definition handleResponse (response : Response) : M AppResponse :=
  let headers := readHeaders (response_headers response) in
  if isError response then handleExpectedError response headers
  else
    bodyText <- settled (text response) ;;
    body <- parseBody bodyText ;;
    ret (new_AppResponse body headers).

Definition handleUnexpectedError (error : JsValue) : M AppResponse :=
  isAppError <- instanceof error AppError ;;
  if negb isAppError then
    e <- new_error AppError error JUndefined ;; throw e
  else throw error.

Definition buildQueryParams (query : JsValue) (deleteEmptyParams : bool)
  : M string :=
  params <- spread query ;;
  paramsAsArray <- alloc (mkObj PlainObject []) ;;
  for_in params tt (fun param _ =>
    value <- get params param ;;
    when (deleteEmptyParams &&
          match value with
          | JUndefined | JNull | JString "" => true
          | _ => false
          end)
         (delete_ params param) ;;
    value <- get params param ;;
    when (Array_isArray value)
         (set paramsAsArray param value ;;
          delete_ params param)) ;;
  searchParams <- new_URLSearchParams params ;;
  searchParams <- for_in paramsAsArray searchParams (fun param searchParams =>
    value <- get paramsAsArray param ;;
    elements <- forEach_if_length value ;;
    forEach elements searchParams (fun element searchParams =>
      URLSearchParams_append searchParams param element)) ;;
  ret (URLSearchParams_toString searchParams).

Definition query (url : string) (query : JsValue) (headers : JsValue)
  : M AppResponse :=
  url <- (if truthy query
          then qs <- buildQueryParams query true ;; ret (url +:+ "?" +:+ qs)
          else ret url) ;;
  catch
    (response <- settled (fetch url
                    (mkInit Methods.Get SameOrigin
                            (match headers with
                             | JUndefined => Headers
                             | _ => headers
                             end)
                            JUndefined)) ;;
     handleResponse response)
    handleUnexpectedError.

(** The argument of [fetch] is evaluated before the call: what
    [stringifyBody] throws leaves [command] before there is a promise. *)
Definition command (method : string) (url : string) (body : JsValue)
  : M AppResponse :=
  body <- settled (stringifyBody body) ;;
  catch
    (response <- settled (fetch url (mkInit method SameOrigin Headers body)) ;;
     handleResponse response)
    handleUnexpectedError.

Definition getAsync (url : string) (q : JsValue) (headers : JsValue)
  : M JsValue :=
  catch
    (response <- query url q headers ;;
     ret (body response))
    (fun error =>
       interceptError error ;;
       ret JUndefined).

Definition postAsync (url : string) (body_ : JsValue) : M Result :=
  catch
    (response <- command Methods.Post url body_ ;;
     ret (new_Result true (body response) JUndefined))
    (fun error => interceptError error).

Definition putAsync (url : string) (body_ : JsValue) : M Result :=
  catch
    (response <- command Methods.Put url body_ ;;
     ret (new_Result true (body response) JUndefined))
    (fun error => interceptError error).

Definition deleteAsync (url : string) (body_ : JsValue) : M Result :=
  catch
    (response <- command Methods.Delete url body_ ;;
     ret (new_Result true (body response) JUndefined))
    (fun error => interceptError error).

End Platform.

(** ** An instance of the platform, for running the model

    [JSON_parse_fragment] reads the JSON texts built from objects, arrays,
    strings without escapes, integers and the three literals; it stands in
    for [JSON.parse] where a theorem is run on a concrete body.  The
    theorems themselves hold for every [JSON_parse]. *)

Module Sample.

Definition is_ws (c : ascii) : bool :=
  let n := N_of_ascii c in ((n =? 32) || (n =? 9) || (n =? 10) || (n =? 13))%N.

Definition dquote : ascii := ascii_of_N 34.

Fixpoint skip_ws (s : string) : string :=
  match s with
  | String c s' => if is_ws c then skip_ws s' else s
  | EmptyString => s
  end.

(** The characters of a string literal up to its closing quote. *)
Fixpoint string_lit (s : string) : option (string * string) :=
  match s with
  | EmptyString => None
  | String c s' =>
      if Ascii.eqb c dquote then Some (EmptyString, s')
      else if Ascii.eqb c "\" then None
      else if (N_of_ascii c <? 32)%N then None
      else match string_lit s' with
           | Some (lit, rest) => Some (String c lit, rest)
           | None => None
           end
  end.

Fixpoint digits (s : string) (acc : Z) : Z * string :=
  match s with
  | String c s' =>
      if is_digit c
      then digits s' (10 * acc + Z.of_N (N_of_ascii c) - 48)
      else (acc, s)
  | EmptyString => (acc, s)
  end.

(** An optional minus sign, then zero or a digit from 1 to 9 and more
    digits; not followed by a fraction or an exponent. *)
Definition number_lit (s : string) : option (Z * string) :=
  let '(neg, s1) := match s with
                    | String "-" s' => (true, s')
                    | _ => (false, s)
                    end in
  match s1 with
  | String c s2 =>
      if is_digit c then
        let '(n, rest) := if Ascii.eqb c "0" then (0, s2) else digits s1 0 in
        match rest with
        | String c' _ =>
            if is_digit c' || Ascii.eqb c' "." || Ascii.eqb c' "e" || Ascii.eqb c' "E"
            then None
            else Some (if neg : bool then - n else n, rest)
        | EmptyString => Some (if neg : bool then - n else n, rest)
        end
      else None
  | EmptyString => None
  end.

Fixpoint value (fuel : nat) (s : string) : option (JsValue * string) :=
  match fuel with
  | O => None
  | S fuel' =>
      match skip_ws s with
      | String "n" (String "u" (String "l" (String "l" rest))) => Some (JNull, rest)
      | String "t" (String "r" (String "u" (String "e" rest))) => Some (JBool true, rest)
      | String "f" (String "a" (String "l" (String "s" (String "e" rest)))) =>
          Some (JBool false, rest)
      | String "[" rest =>
          match skip_ws rest with
          | String "]" rest' => Some (JArray [], rest')
          | _ => elements fuel' rest []
          end
      | String "{" rest =>
          match skip_ws rest with
          | String "}" rest' => Some (JObject [], rest')
          | _ => members fuel' rest []
          end
      | String c rest as s' =>
          if Ascii.eqb c dquote then
            match string_lit rest with
            | Some (lit, rest') => Some (JString lit, rest')
            | None => None
            end
          else
            match number_lit s' with
            | Some (n, rest') => Some (JNumber n, rest')
            | None => None
            end
      | EmptyString => None
      end
  end
with elements (fuel : nat) (s : string) (acc : list JsValue)
  : option (JsValue * string) :=
  match fuel with
  | O => None
  | S fuel' =>
      match value fuel' s with
      | Some (v, rest) =>
          match skip_ws rest with
          | String "," rest' => elements fuel' rest' (acc ++ [v])
          | String "]" rest' => Some (JArray (acc ++ [v]), rest')
          | _ => None
          end
      | None => None
      end
  end
with members (fuel : nat) (s : string) (acc : list (string * JsValue))
  : option (JsValue * string) :=
  match fuel with
  | O => None
  | S fuel' =>
      match skip_ws s with
      | String c rest =>
          if Ascii.eqb c dquote then
            match string_lit rest with
            | Some (key, rest1) =>
                match skip_ws rest1 with
                | String ":" rest2 =>
                    match value fuel' rest2 with
                    | Some (v, rest3) =>
                        match skip_ws rest3 with
                        | String "," rest4 => members fuel' rest4 (prop_set key v acc)
                        | String "}" rest4 => Some (JObject (prop_set key v acc), rest4)
                        | _ => None
                        end
                    | None => None
                    end
                | _ => None
                end
            | None => None
            end
          else None
      | EmptyString => None
      end
  end.

Definition SyntaxError : JsValue := JError "SyntaxError" "Unexpected token".

Definition JSON_parse_fragment (text : string) : Completion JsValue :=
  match value (S (String.length text)) text with
  | Some (v, rest) =>
      match skip_ws rest with
      | EmptyString => Normal v
      | _ => Throw SyntaxError
      end
  | None => Throw SyntaxError
  end.

(** A [JSON.stringify] that returns [undefined], as for a function. *)
Definition JSON_stringify_none (v : JsValue) : Completion JsValue := Normal JUndefined.

(** [JSON.stringify] at a value on which it throws [e]. *)
Definition JSON_stringify_throws (e : JsValue) (v : JsValue) : Completion JsValue :=
  Throw e.


(** A store with one object that refers to itself. *)
Definition cyclic_body : State :=
  mkState [mkObj PlainObject [("self", JRef 0%nat)]] [] [].

Definition empty_state : State := mkState [] [] [].

(** A transport that settles every request in the same way. *)
Definition fetch_settles (c : Completion Response)
  : string -> RequestInit -> Completion Response :=
  fun _ _ => c.

Definition quoted (s : string) : string :=
  String dquote (s +:+ String dquote EmptyString).

(** Status 404 with the body [{"reason":"missing"}]. *)
Definition body_404 : string :=
  "{" +:+ quoted "reason" +:+ ":" +:+ quoted "missing" +:+ "}".

Definition response_404 : Response :=
  mkResponse 404 [("content-type", "application/json")] (Normal body_404).

(** Status 201 with the body [{"id":7}]. *)
Definition response_201 : Response :=
  mkResponse 201 [] (Normal ("{" +:+ quoted "id" +:+ ":7}")).

(** What [fetch] rejects with when the network is down. *)
Definition network_fault : JsValue := TypeError "Failed to fetch".

(** A store with one error of class [C] that holds a diagnostic body. *)
Definition diagnostic : JsValue := JObject [("detail", JString "stack trace")].

Definition one_error (C : Class) : State :=
  mkState [mkObj C [("body", diagnostic); ("headers", JNull)]] [] [].

(** The query [{ tags: ["a", "b"], name: "" }], in the store. *)
Definition tags_query : Obj :=
  mkObj PlainObject [("tags", JArray [JString "a"; JString "b"]);
                     ("name", JString "")].

Definition one_query : State := mkState [tags_query] [] [].

(** A query with an index key, scalars, an empty parameter and arrays. *)
Definition mixed_query : Obj :=
  mkObj PlainObject [("1", JArray [JNumber 7]);
                     ("page", JNumber 2);
                     ("q", JString "a b");
                     ("none", JNull);
                     ("tags", JArray [JString "x"; JNull]);
                     ("flag", JBool false)].

(** Status 200 whose body cannot be read. *)
Definition body_fault : JsValue := TypeError "body stream already read".

Definition response_200_unreadable : Response :=
  mkResponse 200 [] (Throw body_fault).

(** Status 500 with a body that is no JSON. *)
Definition response_500 : Response :=
  mkResponse 500 [("x-request-id", "42")] (Normal "Internal Server Error").

(** A headers object of the store. *)
Definition headers_object : Obj :=
  mkObj PlainObject [("Accept", JString "application/json")].

Definition one_headers : State := mkState [headers_object] [] [].

(** A query whose parameters are all empty. *)
Definition blank_query : Obj :=
  mkObj PlainObject [("name", JString EmptyString); ("page", JUndefined)].

(** A transport that knows one URL and fails on every other. *)
Definition fetch_only (expected : string) (c : Completion Response)
  : string -> RequestInit -> Completion Response :=
  fun url _ => if String.eqb url expected then c else Throw network_fault.

Definition body_201 : string := "{" +:+ quoted "id" +:+ ":7}".

(** What [JSON.stringify] throws on a value that refers to itself. *)
Definition cyclic_fault : JsValue :=
  TypeError "Converting circular structure to JSON".

(** The query that [JSON.parse] reads from [{"__proto__":["a"]}]: the key
    is a property of the object itself. *)
Definition proto_query : Obj :=
  mkObj PlainObject [("__proto__", JArray [JString "a"])].

(** The query [{"filter":{"toString":1}}]: the value of its parameter has
    a property [toString] that is no function. *)
Definition opaque_query : Obj :=
  mkObj PlainObject [("filter", JObject [("toString", JNumber 1)])].

(** A header collection with a header named [__proto__]. *)
Definition proto_headers : list (string * string) :=
  [("etag", "1"); ("__proto__", "x"); ("vary", "a"); ("etag", "2")].

End Sample.

(** ** Notions used in the statements *)

(** Whether [interceptError] overwrites the body of an instance of [C]:
    the test of its second [if]. *)
Definition redacts (DEBUG : bool) (C : Class) : bool :=
  negb DEBUG && Class_eqb C AppError.

(** The object after [error.body = 'Technical error']. *)
Definition redacted (o : Obj) : Obj :=
  mkObj (class o) (prop_set "body" (JString "Technical error") (props o)).

(** The rejection with a new instance of [C]: what
    [Promise.reject(new C(body, headers))] settles to. *)
Definition rejected_with {A} (C : Class) (body headers : JsValue) (st : State)
  : Completion A * State :=
  (Throw (JRef (length (heap st))),
   set_heap (heap st ++ [mkObj C [("body", body); ("headers", headers)]]) st).

(** The invariant of the [Result] envelope: [succeeded] holds exactly when
    there is no error, and a failed result carries no payload. *)
Definition Result_invariant (r : Result) : Prop :=
  (succeeded r = true <-> absent (error r) = true) /\
  (succeeded r = false -> absent (payload r) = true).

(** A computation preserves an invariant of the state, whether it
    returns or throws. *)
Definition preserves {A} (P : State -> Prop) (m : M A) : Prop :=
  forall st, P st -> P (snd (m st)).

(** The states that differ from one with store [H] by two more cells
    right after [H]: the two working objects of [buildQueryParams]. *)
Definition two_more (H : list Obj) (navs : list string) (cons : list LogEntry)
  (st : State) : Prop :=
  exists p a, st = mkState (H ++ [p; a]) navs cons.

(** The three values that [buildQueryParams] takes for an empty
    parameter. *)
Definition empty_param (v : JsValue) : bool :=
  match v with
  | JUndefined | JNull | JString "" => true
  | _ => false
  end.

(** The parameters that stay in [params] after the first loop, and those
    that it moves to [paramsAsArray]. *)
Definition kept_params (deleteEmptyParams : bool) (ps : list (string * JsValue))
  : list (string * JsValue) :=
  List.filter (fun '(_, v) => negb (deleteEmptyParams && empty_param v) &&
                              negb (Array_isArray v)) ps.

Definition array_params (ps : list (string * JsValue)) : list (string * JsValue) :=
  List.filter (fun '(_, v) => Array_isArray v) ps.

(** The query string in the words of the specification: the scalar
    parameters that are not empty, each once, and then every element of
    every array parameter under the key of its parameter. *)
Definition scalar_entries (ps : list (string * JsValue)) : URLSearchParams :=
  map (fun '(k, v) => (k, ToString v)) (kept_params true ps).

Definition array_entries (ps : list (string * JsValue)) : URLSearchParams :=
  flat_map (fun '(k, v) =>
              match v with
              | JArray elems => map (fun e => (k, ToString e)) elems
              | _ => []
              end) ps.

(** The entries of a query string under one key, in their order. *)
Definition entries_of (k : string) (sp : URLSearchParams) : URLSearchParams :=
  List.filter (fun e => String.eqb (fst e) k) sp.

(** What the specification asks of the outcome [c] of
    [buildQueryParams(query, true)] for the parameters [ps]: it is a query
    string, of some list of entries, in which an empty parameter has no
    entry, an array parameter has one entry for each element, and any
    other parameter has one entry. *)
Definition serializes (ps : list (string * JsValue)) (c : Completion string) : Prop :=
  exists sp : URLSearchParams,
    c = Normal (URLSearchParams_toString sp) /\
    forall k v, In (k, v) ps ->
      entries_of k sp =
        if empty_param v then []
        else match v with
             | JArray elems => map (fun e => (k, ToString e)) elems
             | _ => [(k, ToString v)]
             end.

(** A property list as the engine holds it: no key twice, and the keys in
    enumeration order. *)
Fixpoint distinct (ks : list string) : bool :=
  match ks with
  | [] => true
  | k :: ks' => negb (existsb (String.eqb k) ks') && distinct ks'
  end.

Fixpoint enumeration_ordered (ks : list string) : bool :=
  match ks with
  | [] => true
  | k :: ks' =>
      forallb (fun k' => negb (enumerated_before k' k)) ks' &&
      enumeration_ordered ks'
  end.

(** A value that is data and can be converted to a string: a primitive,
    an error, an object that has no [toString] of its own, an array of
    such values.  The objects that a query holds are carried as values,
    not as references to the store. *)
Fixpoint plain_data (v : JsValue) : bool :=
  match v with
  | JArray elems => forallb plain_data elems
  | JObject fields => negb (prop_has "toString" fields)
  | JRef _ => false
  | _ => true
  end.

(** A query that [buildQueryParams] serializes: a property list as the
    engine holds it, without a parameter named [__proto__], whose
    assignment would reach the setter of the prototype, and with values
    that can be converted to strings. *)
Definition well_formed (ps : list (string * JsValue)) : bool :=
  distinct (map fst ps) && enumeration_ordered (map fst ps) &&
  negb (prop_has "__proto__" ps) &&
  forallb plain_data (map snd ps).

(** The value that [parseBody] returns for a text: the parsed value, the
    empty object for the empty text, the wrapper otherwise. *)
Definition decode (JSON_parse : string -> Completion JsValue) (bodyText : string)
  : JsValue :=
  match JSON_parse bodyText with
  | Normal parsed => parsed
  | Throw _ =>
      if String.eqb bodyText ""
      then JObject []
      else JObject [("bodyText", JString bodyText)]
  end.

(** The class that the [switch] of [handleExpectedError] selects. *)
Definition error_class (status : Z) : Class :=
  if status =? Status.BadRequest then BadRequestError
  else if status =? Status.Unauthorized then UnauthorizedError
  else if status =? Status.NotFound then NotFoundError
  else AppError.

(** The three mutating verbs, each with the method it sends. *)
Definition verbs :=
  [(postAsync, Methods.Post); (putAsync, Methods.Put); (deleteAsync, Methods.Delete)].

(** A computation that throws only what passes a test. *)
Definition throws_only {A} (P : JsValue -> Prop) (m : M A) : Prop :=
  forall st e st', m st = (Throw e, st') -> P e.

Definition is_TypeError (e : JsValue) : Prop :=
  exists message, e = TypeError message.

(** Every character of a string passes a test. *)
Fixpoint string_forall (p : ascii -> bool) (s : string) : bool :=
  match s with
  | EmptyString => true
  | String c s' => p c && string_forall p s'
  end.

(** The characters of a serialized query string. *)
Definition query_string_char (c : ascii) : bool :=
  urlencoded_unreserved c || Ascii.eqb c "%" || Ascii.eqb c "+" ||
  Ascii.eqb c "=" || Ascii.eqb c "&".

(** * Properties *)

(** ** The store *)

Lemma lookup_fresh (h : list Obj) (o : Obj) : (h ++ [o]) !! length h = Some o.
Proof. rewrite lookup_app_r by lia. now rewrite Nat.sub_diag. Qed.

(** ** Property lists *)

Lemma prop_get_replace_same k v ps :
  prop_has k ps = true -> prop_get k (prop_replace k v ps) = v.
Proof.
  induction ps as [|[k' v'] ps IH]; simpl; [discriminate|].
  destruct (String.eqb k k') eqn:E; simpl.
  - now rewrite String.eqb_refl.
  - rewrite E. exact IH.
Qed.

Lemma prop_get_add_same k v ps :
  prop_has k ps = false -> prop_get k (prop_add k v ps) = v.
Proof.
  induction ps as [|[k' v'] ps IH]; simpl.
  - now rewrite String.eqb_refl.
  - destruct (String.eqb k k') eqn:E; simpl; [discriminate|].
    intros H. destruct (enumerated_before k k'); simpl.
    + now rewrite String.eqb_refl.
    + rewrite E. now apply IH.
Qed.

Lemma prop_get_set_same k v ps : prop_get k (prop_set k v ps) = v.
Proof.
  unfold prop_set. destruct (prop_has k ps) eqn:E.
  - now apply prop_get_replace_same.
  - now apply prop_get_add_same.
Qed.

Lemma prop_get_replace_other k k' v ps :
  k <> k' -> prop_get k' (prop_replace k v ps) = prop_get k' ps.
Proof.
  intros Hne. induction ps as [|[k0 v0] ps IH]; simpl; [reflexivity|].
  destruct (String.eqb k k0) eqn:E; simpl.
  - apply String.eqb_eq in E. subst k0.
    destruct (String.eqb k' k) eqn:E'; [|reflexivity].
    apply String.eqb_eq in E'. congruence.
  - now rewrite IH.
Qed.

Lemma prop_get_add_other k k' v ps :
  k <> k' -> prop_get k' (prop_add k v ps) = prop_get k' ps.
Proof.
  intros Hne. induction ps as [|[k0 v0] ps IH]; simpl.
  - destruct (String.eqb k' k) eqn:E'; [|reflexivity].
    apply String.eqb_eq in E'. congruence.
  - destruct (enumerated_before k k0); simpl.
    + destruct (String.eqb k' k) eqn:E'; [|reflexivity].
      apply String.eqb_eq in E'. congruence.
    + now rewrite IH.
Qed.

Lemma prop_get_set_other k k' v ps :
  k <> k' -> prop_get k' (prop_set k v ps) = prop_get k' ps.
Proof.
  intros Hne. unfold prop_set. destruct (prop_has k ps).
  - now apply prop_get_replace_other.
  - now apply prop_get_add_other.
Qed.

(** ** [interceptError] *)

Section Interception.

Variable DEBUG : bool.

(** What [interceptError] does to an object of the store: one navigation
    for an [UnauthorizedError], the body overwritten when [redacts], the
    object logged as it is after that, and a failed [Result] around the
    same reference. *)
Lemma interceptError_run (l : loc) (st : State) (o : Obj) :
  heap st !! l = Some o ->
  let o' := if redacts DEBUG (class o) then redacted o else o in
  let h' := if redacts DEBUG (class o)
            then <[l := redacted o]> (heap st) else heap st in
  interceptError DEBUG (JRef l) st =
    (Normal (mkResult false JNull (JRef l)),
     mkState h'
             (navigations st ++
                if subclass (class o) UnauthorizedError then ["/"] else [])
             (console st ++ [mkLog (JRef l) (Some o')])).
Proof.
  intros Hl. destruct st as [h navs cons]. simpl in Hl.
  unfold interceptError, redacts, bind, instanceof, instance_of, when,
    constructor_is, set, update, console_error, window_location_replace,
    ret, new_Result, set_heap, redacted; simpl.
  assert (Hlen : (l < length h)%nat) by (eapply lookup_lt_Some; eauto).
  rewrite Hl.
  destruct (subclass (class o) UnauthorizedError);
    destruct DEBUG; simpl; rewrite ?Hl; simpl;
    destruct (Class_eqb (class o) AppError); simpl;
    rewrite ?Hl, ?app_nil_r; simpl;
    rewrite ?list_lookup_insert_eq by assumption; reflexivity.
Qed.

(** On a value that is no object of the store and is neither
    [undefined] nor [null], neither test holds. *)
Lemma interceptError_value (v : JsValue) (st : State) :
  deref (heap st) v = None ->
  absent v = false ->
  interceptError DEBUG v st =
    (Normal (mkResult false JNull v),
     mkState (heap st) (navigations st) (console st ++ [mkLog v None])).
Proof.
  intros Hderef Hpresent.
  unfold interceptError, bind, instanceof, instance_of, constructor_is, when,
    console_error, ret, new_Result.
  rewrite Hderef. cbv beta iota.
  destruct DEBUG; cbn [negb]; cbv beta iota.
  - rewrite Hderef. reflexivity.
  - destruct v; try discriminate Hpresent; cbv beta iota;
      rewrite ?Hderef; cbv beta iota; rewrite ?Hderef; reflexivity.
Qed.

(** Whatever is caught, unless it is [undefined] or [null],
    [interceptError] returns it in a failed [Result], with one more entry
    in the console. *)
Lemma interceptError_present (v : JsValue) (st : State) :
  absent v = false ->
  exists st' entry,
    interceptError DEBUG v st = (Normal (mkResult false JNull v), st') /\
    console st' = console st ++ [entry].
Proof.
  intros Hpresent. destruct (deref (heap st) v) as [o|] eqn:Hderef.
  - destruct v; try discriminate Hderef. simpl in Hderef.
    rewrite (interceptError_run l st o Hderef). now eexists _, _.
  - rewrite (interceptError_value v st Hderef Hpresent). now eexists _, _.
Qed.

(** C5. In a non-debug build [interceptError] overwrites the body of an
    error whose constructor is exactly [AppError] with the placeholder
    and leaves a [BadRequestError], an [UnauthorizedError] and a
    [NotFoundError] as they are; in a debug build it changes no object
    at all. *)
Theorem interceptError_redaction (l : loc) (st : State) (o : Obj) :
  heap st !! l = Some o ->
  let st' := snd (interceptError DEBUG (JRef l) st) in
  fst (interceptError DEBUG (JRef l) st) = Normal (mkResult false JNull (JRef l)) /\
  (DEBUG = false -> class o = AppError ->
     heap st' = <[l := redacted o]> (heap st) /\
     exists o', heap st' !! l = Some o' /\ class o' = AppError /\
       prop_get "body" (props o') = JString "Technical error" /\
       forall k, k <> "body" -> prop_get k (props o') = prop_get k (props o)) /\
  (DEBUG = false ->
     class o = BadRequestError \/ class o = UnauthorizedError \/
     class o = NotFoundError ->
     heap st' = heap st) /\
  (DEBUG = true -> heap st' = heap st).
Proof.
  intros Hl st'. subst st'. rewrite (interceptError_run l st o Hl). simpl.
  split; [reflexivity|]. split; [|split].
  - intros HD HC. unfold redacts. rewrite HD, HC. simpl. split; [reflexivity|].
    exists (redacted o). split.
    + apply list_lookup_insert_eq. eapply lookup_lt_Some; eauto.
    + split; [exact HC|]. split.
      * apply prop_get_set_same.
      * intros k Hk. simpl. apply prop_get_set_other. congruence.
  - intros HD HC. unfold redacts. rewrite HD.
    destruct HC as [HC|[HC|HC]]; rewrite HC; reflexivity.
  - intros HD. unfold redacts. rewrite HD. reflexivity.
Qed.

(** C6. [interceptError] on an [UnauthorizedError] calls
    [window.location.replace('/')] once, on an error of another class it
    does not navigate; in both cases it returns a [Result] with
    [succeeded = false], a [null] payload and the error. *)
Theorem interceptError_navigation (l : loc) (st : State) (o : Obj) :
  heap st !! l = Some o ->
  exists r st',
    interceptError DEBUG (JRef l) st = (Normal r, st') /\
    succeeded r = false /\ payload r = JNull /\ error r = JRef l /\
    absent (error r) = false /\
    (class o = UnauthorizedError -> navigations st' = navigations st ++ ["/"]) /\
    (class o <> UnauthorizedError -> navigations st' = navigations st).
Proof.
  intros Hl. rewrite (interceptError_run l st o Hl).
  eexists _, _. split; [reflexivity|]. simpl.
  repeat (split; [reflexivity|]). split.
  - intros HC. rewrite HC. reflexivity.
  - intros HC. destruct (class o); try congruence; simpl; apply app_nil_r.
Qed.

(** C4, as amended. The one entry that [interceptError] adds to the
    console is the error object as it is after the redaction step, the
    same object that the [Result] carries: the logged body is the
    placeholder when the body was overwritten (non-debug build, exactly
    [AppError]) and the original body otherwise. *)
Theorem interceptError_logs_after_redaction (l : loc) (st : State) (o : Obj) :
  heap st !! l = Some o ->
  exists o' st',
    interceptError DEBUG (JRef l) st =
      (Normal (mkResult false JNull (JRef l)), st') /\
    console st' = console st ++ [mkLog (JRef l) (Some o')] /\
    heap st' !! l = Some o' /\
    prop_get "body" (props o') =
      if redacts DEBUG (class o) then JString "Technical error"
      else prop_get "body" (props o).
Proof.
  intros Hl. rewrite (interceptError_run l st o Hl).
  eexists _, _. split; [reflexivity|]. simpl. split; [reflexivity|].
  destruct (redacts DEBUG (class o)).
  - split; [|apply prop_get_set_same].
    apply list_lookup_insert_eq. eapply lookup_lt_Some; eauto.
  - split; [exact Hl|reflexivity].
Qed.

End Interception.

(** ** The classification pipeline *)

Section Pipeline.

Variable DEBUG : bool.
Variable JSON_parse : string -> Completion JsValue.
Variable JSON_stringify : JsValue -> Completion JsValue.
Variable fetch : string -> RequestInit -> Completion Response.

Lemma parseBody_run (bodyText : string) (st : State) :
  parseBody JSON_parse bodyText st =
    (Normal match JSON_parse bodyText with
            | Normal parsed => parsed
            | Throw _ =>
                if String.eqb bodyText ""
                then JObject []
                else JObject [("bodyText", JString bodyText)]
            end, st).
Proof.
  unfold parseBody, catch, settled, ret, truthy.
  destruct (JSON_parse bodyText); [reflexivity|].
  destruct (String.eqb bodyText ""); reflexivity.
Qed.

(** C2. [parseBody] returns normally on every string and leaves the
    state alone: the parsed value when [JSON.parse] accepts the text, the
    empty object for the empty text, and the wrapper around the text
    when it is not empty and [JSON.parse] throws.  That [JSON.parse]
    throws on the empty text is the one fact about it that is used. *)
Theorem parseBody_never_raises (rawText : string) (st : State) :
  (forall v, JSON_parse "" <> Normal v) ->
  exists body,
    parseBody JSON_parse rawText st = (Normal body, st) /\
    (forall v, JSON_parse rawText = Normal v -> body = v) /\
    (rawText = "" -> body = JObject []) /\
    (rawText <> "" -> (forall v, JSON_parse rawText <> Normal v) ->
       body = JObject [("bodyText", JString rawText)]).
Proof.
  intros Hempty. rewrite parseBody_run. eexists. split; [reflexivity|].
  split; [|split].
  - intros v Hv. now rewrite Hv.
  - intros ->. destruct (JSON_parse "") as [v|e] eqn:E; [|reflexivity].
    now destruct (Hempty v).
  - intros Hne Hthrow. destruct (JSON_parse rawText) as [v|e] eqn:E.
    + now destruct (Hthrow v).
    + destruct (String.eqb rawText "") eqn:E'; [|reflexivity].
      apply String.eqb_eq in E'. contradiction.
Qed.

(** *** [handleUnexpectedError] *)

Lemma handleUnexpectedError_rethrows (error : JsValue) (st : State) :
  instance_of (heap st) error AppError = true ->
  handleUnexpectedError error st = (Throw error, st).
Proof.
  intros H. unfold handleUnexpectedError, bind, instanceof, throw.
  now rewrite H.
Qed.

Lemma handleUnexpectedError_wraps (error : JsValue) (st : State) :
  instance_of (heap st) error AppError = false ->
  handleUnexpectedError error st =
    (Throw (JRef (length (heap st))),
     set_heap (heap st ++ [mkObj AppError [("body", default_null error);
                                           ("headers", JNull)]]) st).
Proof.
  intros H. unfold handleUnexpectedError, bind, instanceof, throw.
  now rewrite H.
Qed.

(** Whatever the fault, the handler rejects with an instance of
    [AppError], old or new, and touches neither the objects that were
    there nor the two effects. *)
Lemma handleUnexpectedError_run (error : JsValue) (st : State) :
  exists l o st',
    handleUnexpectedError error st = (Throw (JRef l), st') /\
    heap st' !! l = Some o /\ subclass (class o) AppError = true /\
    navigations st' = navigations st /\ console st' = console st.
Proof.
  destruct (instance_of (heap st) error AppError) eqn:E.
  - rewrite handleUnexpectedError_rethrows by exact E.
    unfold instance_of, deref in E.
    destruct error; try discriminate.
    destruct (heap st !! l) as [o|] eqn:El; [|discriminate].
    exists l, o, st. auto.
  - rewrite handleUnexpectedError_wraps by exact E.
    eexists _, _, _. split; [reflexivity|]. simpl.
    rewrite lookup_fresh. auto.
Qed.

(** C7. [handleUnexpectedError] rejects on every fault, and a fault that
    is already an instance of [AppError] or of a subclass is rejected
    as it is, the same reference, with the store unchanged. *)
Theorem handleUnexpectedError_always_rejects (error : JsValue) (st : State) :
  (exists reason st', handleUnexpectedError error st = (Throw reason, st')) /\
  (instance_of (heap st) error AppError = true ->
     handleUnexpectedError error st = (Throw error, st)).
Proof.
  split.
  - destruct (handleUnexpectedError_run error st) as (l & o & st' & H & _).
    eauto.
  - apply handleUnexpectedError_rethrows.
Qed.

(** *** [handleResponse] *)

Lemma handleResponse_run (response : Response) (bodyText : string)
  (body : JsValue) (st : State) :
  text response = Normal bodyText ->
  parseBody JSON_parse bodyText st = (Normal body, st) ->
  let headers := readHeaders (response_headers response) in
  handleResponse JSON_parse response st =
    if isError response then
      rejected_with
        (if status response =? 400 then BadRequestError
         else if status response =? 401 then UnauthorizedError
         else if status response =? 404 then NotFoundError
         else AppError) (default_null body) headers st
    else (Normal (mkAppResponse (default_null body) headers), st).
Proof.
  intros Htext Hbody headers.
  unfold handleResponse, handleExpectedError. fold headers.
  destruct (isError response).
  - unfold bind at 1 2, settled. rewrite Htext, Hbody.
    unfold Status.BadRequest, Status.Unauthorized, Status.NotFound.
    destruct (status response =? 400); [reflexivity|].
    destruct (status response =? 401); [reflexivity|].
    destruct (status response =? 404); reflexivity.
  - unfold bind, settled. rewrite Htext, Hbody. reflexivity.
Qed.

Lemma handleResponse_text_fails (response : Response) (fault : JsValue)
  (st : State) :
  text response = Throw fault ->
  handleResponse JSON_parse response st = (Throw fault, st).
Proof.
  intros Htext. unfold handleResponse, handleExpectedError.
  destruct (isError response); unfold bind at 1, settled;
    rewrite Htext; reflexivity.
Qed.

(** The three ways [handleResponse] settles. *)
Lemma handleResponse_outcome (response : Response) (st : State) :
  (exists r, handleResponse JSON_parse response st = (Normal r, st)) \/
  (exists C b h, subclass C AppError = true /\
     handleResponse JSON_parse response st = rejected_with C b h st) \/
  (exists fault, handleResponse JSON_parse response st = (Throw fault, st)).
Proof.
  destruct (text response) as [bodyText|fault] eqn:Htext.
  - rewrite (handleResponse_run response bodyText _ st Htext
               (parseBody_run bodyText st)).
    destruct (isError response); [right; left|left; eauto].
    eexists _, _, _. split; [|reflexivity].
    destruct (status response =? 400); [reflexivity|].
    destruct (status response =? 401); [reflexivity|].
    destruct (status response =? 404); reflexivity.
  - right; right. exists fault. now apply handleResponse_text_fails.
Qed.

(** The chain [.then(handleResponse).catch(handleUnexpectedError)] on a
    response that [fetch] resolved to: a rejection of [handleResponse]
    with one of the error classes passes the handler unchanged. *)
Lemma chain_run (response : Response) (bodyText : string) (st : State) :
  text response = Normal bodyText ->
  catch (handleResponse JSON_parse response) handleUnexpectedError st =
    handleResponse JSON_parse response st.
Proof.
  intros Htext. unfold catch.
  rewrite (handleResponse_run response bodyText _ st Htext
             (parseBody_run bodyText st)).
  destruct (isError response); [|reflexivity].
  unfold rejected_with. apply handleUnexpectedError_rethrows. simpl.
  unfold instance_of, deref. rewrite lookup_fresh. simpl.
  destruct (status response =? 400); [reflexivity|].
  destruct (status response =? 401); [reflexivity|].
  destruct (status response =? 404); reflexivity.
Qed.

(** The chain rejects with an instance of [AppError] or fulfils. *)
Lemma chain_outcome (response : Completion Response) (st : State) :
  let chain := catch (r <- settled response ;; handleResponse JSON_parse r)
                     handleUnexpectedError in
  (exists r, chain st = (Normal r, st)) \/
  (exists l o st', chain st = (Throw (JRef l), st') /\
     heap st' !! l = Some o /\ subclass (class o) AppError = true /\
     navigations st' = navigations st /\ console st' = console st).
Proof.
  intros chain. subst chain. unfold catch, bind, settled.
  destruct response as [response|fault]; cbv beta iota.
  - destruct (handleResponse_outcome response st)
      as [[r H]|[(C & b & h & HC & H)|[e H]]]; rewrite H.
    + left. eauto.
    + right. unfold rejected_with. cbv beta iota.
      rewrite handleUnexpectedError_rethrows.
      * eexists _, _, _. split; [reflexivity|]. simpl.
        rewrite lookup_fresh. auto.
      * simpl. unfold instance_of, deref. now rewrite lookup_fresh.
    + right. apply handleUnexpectedError_run.
  - right. apply handleUnexpectedError_run.
Qed.

(** [command] once [stringifyBody] has returned, and when it throws. *)
Lemma command_sent (method url : string) (b sent : JsValue) (st : State) :
  stringifyBody JSON_stringify b = Normal sent ->
  command JSON_parse JSON_stringify fetch method url b st =
    catch (response <- settled (fetch url (mkInit method SameOrigin Headers sent)) ;;
           handleResponse JSON_parse response)
          handleUnexpectedError st.
Proof. intros H. unfold command, bind at 1, settled. now rewrite H. Qed.

Lemma command_not_sent (method url : string) (b e : JsValue) (st : State) :
  stringifyBody JSON_stringify b = Throw e ->
  command JSON_parse JSON_stringify fetch method url b st = (Throw e, st).
Proof. intros H. unfold command, bind at 1, settled. now rewrite H. Qed.

(** C1. On a response whose body was read, the pipeline settles by the
    status alone: from 200 to 299 it fulfils with the decoded body and
    the headers; otherwise it rejects with a new [BadRequestError] for
    400, [UnauthorizedError] for 401, [NotFoundError] for 404 and
    [AppError] for every other status, each holding the decoded body
    and the headers.  [command] settles as [handleResponse] does.
    [JSON.parse] never returns [undefined]; the last hypothesis says so
    for the body at hand, where the constructors would put [null].  The
    request was sent: [stringifyBody] returned the body [sent]. *)
Theorem status_table (method url : string) (b sent : JsValue)
  (response : Response) (bodyText : string) (st : State) :
  stringifyBody JSON_stringify b = Normal sent ->
  fetch url (mkInit method SameOrigin Headers sent) = Normal response ->
  text response = Normal bodyText ->
  JSON_parse bodyText <> Normal JUndefined ->
  exists body,
    parseBody JSON_parse bodyText st = (Normal body, st) /\
    let headers := readHeaders (response_headers response) in
    let outcome := handleResponse JSON_parse response st in
    command JSON_parse JSON_stringify fetch method url b st = outcome /\
    (200 <= status response <= 299 ->
       outcome = (Normal (mkAppResponse body headers), st)) /\
    (status response = 400 ->
       outcome = rejected_with BadRequestError body headers st) /\
    (status response = 401 ->
       outcome = rejected_with UnauthorizedError body headers st) /\
    (status response = 404 ->
       outcome = rejected_with NotFoundError body headers st) /\
    (status response < 200 \/ 299 < status response ->
     status response <> 400 -> status response <> 401 ->
     status response <> 404 ->
       outcome = rejected_with AppError body headers st).
Proof.
  intros Hsent Hfetch Htext Hdef.
  pose proof (parseBody_run bodyText st) as Hbody.
  eexists. split; [exact Hbody|].
  set (body := match JSON_parse bodyText with
               | Normal parsed => parsed
               | Throw _ => _
               end) in *.
  assert (Hnull : default_null body = body).
  { subst body. destruct (JSON_parse bodyText) as [v|e].
    - destruct v; try reflexivity. congruence.
    - destruct (String.eqb bodyText ""); reflexivity. }
  intros headers outcome. split.
  - rewrite (command_sent method url b sent st Hsent).
    unfold catch, bind at 1, settled. rewrite Hfetch.
    exact (chain_run response bodyText st Htext).
  - subst outcome.
    rewrite (handleResponse_run response bodyText body st Htext Hbody).
    rewrite Hnull. fold headers. unfold isError, Status.Ok, Status.Unassigned.
    split; [|split; [|split; [|split]]].
    + intros Hs.
      destruct (status response <? 200) eqn:E1; [lia|].
      destruct (status response >? 299) eqn:E2; [lia|]. reflexivity.
    + intros ->. reflexivity.
    + intros ->. reflexivity.
    + intros ->. reflexivity.
    + intros Hs H400 H401 H404.
      replace ((status response <? 200) || (status response >? 299)) with true
        by (symmetry; apply orb_true_iff; lia).
      destruct (status response =? 400) eqn:E1; [lia|].
      destruct (status response =? 401) eqn:E2; [lia|].
      destruct (status response =? 404) eqn:E3; [lia|]. reflexivity.
Qed.

(** *** The verbs *)


(** C3, as amended. A fault that is not an instance of [AppError] is
    wrapped by [new AppError(error)]: a new [AppError] whose body is the
    fault itself ([null] for an [undefined] fault) and whose headers are
    [null].  Each mutating verb then returns a failed [Result] around that
    object, its headers [null] and its body the fault in a debug build
    and the placeholder in a non-debug build.  The transport is reached:
    [stringifyBody] returned the body [sent]. *)
Theorem transport_fault_wrapped (url : string) (b sent fault : JsValue)
  (st : State) :
  stringifyBody JSON_stringify b = Normal sent ->
  (forall method,
     fetch url (mkInit method SameOrigin Headers sent) = Throw fault) ->
  instance_of (heap st) fault AppError = false ->
  let l := length (heap st) in
  handleUnexpectedError fault st =
    rejected_with AppError (default_null fault) JNull st /\
  forall verb, In verb [postAsync; putAsync; deleteAsync] ->
    exists st',
      verb DEBUG JSON_parse JSON_stringify fetch url b st =
        (Normal (mkResult false JNull (JRef l)), st') /\
      heap st' !! l =
        Some (mkObj AppError
                [("body", if DEBUG then default_null fault
                          else JString "Technical error");
                 ("headers", JNull)]) /\
      navigations st' = navigations st.
Proof.
  intros Hsent Hfetch Hraw l.
  pose proof (handleUnexpectedError_wraps fault st Hraw) as Hwrap.
  split; [exact Hwrap|].
  assert (Hverb : forall method,
    exists st',
      catch (response <- command JSON_parse JSON_stringify fetch method url b ;;
             ret (new_Result true (body response) JUndefined))
            (fun error => interceptError DEBUG error) st =
        (Normal (mkResult false JNull (JRef l)), st') /\
      heap st' !! l =
        Some (mkObj AppError
                [("body", if DEBUG then default_null fault
                          else JString "Technical error");
                 ("headers", JNull)]) /\
      navigations st' = navigations st).
  { intros method.
    unfold catch at 1, bind at 1.
    rewrite (command_sent method url b sent st Hsent).
    unfold catch at 1, bind at 1, settled.
    rewrite Hfetch. cbv beta iota. rewrite Hwrap. cbv beta iota.
    erewrite interceptError_run by (simpl; apply lookup_fresh).
    eexists. split; [reflexivity|]. simpl. unfold redacts.
    split; [|apply app_nil_r].
    destruct DEBUG; simpl.
    - apply lookup_fresh.
    - rewrite list_lookup_insert_eq; [reflexivity|].
      rewrite length_app. simpl. lia. }
  intros verb [<-|[<-|[<-|[]]]].
  - apply (Hverb Methods.Post).
  - apply (Hverb Methods.Put).
  - apply (Hverb Methods.Delete).
Qed.

End Pipeline.

(** ** [buildQueryParams]: the caller's objects *)

Section Frame.

Context {A : Type} (P : State -> Prop).

Lemma preserves_ret (a : A) : preserves P (ret a).
Proof. intros st H. exact H. Qed.

Lemma preserves_pure (f : State -> A) :
  preserves P (fun st => (Normal (f st), st)).
Proof. intros st H. exact H. Qed.

Lemma preserves_inspect (f : State -> Completion A) :
  preserves P (fun st => (f st, st)).
Proof. intros st H. exact H. Qed.


Lemma preserves_bind {B} (m : M B) (k : B -> M A) :
  preserves P m -> (forall b, preserves P (k b)) -> preserves P (bind m k).
Proof.
  intros Hm Hk st H. unfold bind. specialize (Hm st H).
  destruct (m st) as [[b|e] st1]; simpl in *.
  - now apply Hk.
  - exact Hm.
Qed.

End Frame.

Lemma preserves_when (P : State -> Prop) (b : bool) (m : M unit) :
  preserves P m -> preserves P (when b m).
Proof. intros H. destruct b; [exact H|apply preserves_ret]. Qed.

Lemma preserves_forEach {A B} (P : State -> Prop) (f : A -> B -> M B)
  (xs : list A) (acc : B) :
  (forall x acc', preserves P (f x acc')) -> preserves P (forEach xs acc f).
Proof.
  intros Hf. revert acc. induction xs as [|x xs IH]; intros acc; simpl.
  - apply preserves_ret.
  - apply preserves_bind; [apply Hf|]. intros acc'. apply IH.
Qed.

Lemma preserves_append (P : State -> Prop) sp k v :
  preserves P (URLSearchParams_append sp k v).
Proof.
  unfold URLSearchParams_append, ToUSVString.
  apply preserves_bind; [|intros text; apply preserves_ret].
  intros st HP. now destruct (printable (heap st) v).
Qed.

Lemma preserves_new_URLSearchParams (P : State -> Prop) (o : JsValue) :
  preserves P (new_URLSearchParams o).
Proof.
  intros st HP. unfold new_URLSearchParams.
  apply preserves_forEach; [|exact HP].
  intros [k v] sp. apply preserves_append.
Qed.

Lemma preserves_for_in_keys {A} (P : State -> Prop) (o : JsValue)
  (body : string -> A -> M A) (keys : list string) (acc : A) :
  (forall k acc', preserves P (body k acc')) ->
  preserves P (for_in_keys o keys acc body).
Proof.
  intros Hbody. revert acc.
  induction keys as [|k keys IH]; intros acc; simpl.
  - apply preserves_ret.
  - apply preserves_bind; [apply preserves_pure|]. intros present.
    apply preserves_bind; [|intros acc'; apply IH].
    destruct present; [apply Hbody|apply preserves_ret].
Qed.

Lemma preserves_for_in {A} (P : State -> Prop) (o : JsValue)
  (body : string -> A -> M A) (acc : A) :
  (forall k acc', preserves P (body k acc')) ->
  preserves P (for_in o acc body).
Proof.
  intros Hbody. apply preserves_bind; [apply preserves_pure|].
  intros keys. now apply preserves_for_in_keys.
Qed.

Section TwoCells.

Variable H : list Obj.
Variable navs : list string.
Variable cons : list LogEntry.

Lemma lookup_first (p a : Obj) : (H ++ [p; a]) !! length H = Some p.
Proof. rewrite lookup_app_r by lia. now rewrite Nat.sub_diag. Qed.

Lemma lookup_second (p a : Obj) : (H ++ [p; a]) !! S (length H) = Some a.
Proof.
  rewrite lookup_app_r by lia.
  now replace (S (length H) - length H)%nat with 1%nat by lia.
Qed.

Lemma insert_first (p a p' : Obj) :
  <[length H := p']> (H ++ [p; a]) = H ++ [p'; a].
Proof.
  rewrite insert_app_r_alt by lia. now rewrite Nat.sub_diag.
Qed.

Lemma insert_second (p a a' : Obj) :
  <[S (length H) := a']> (H ++ [p; a]) = H ++ [p; a'].
Proof.
  rewrite insert_app_r_alt by lia.
  now replace (S (length H) - length H)%nat with 1%nat by lia.
Qed.

(** Writing to one of the two working objects touches nothing else. *)
Lemma preserves_update_second f :
  preserves (two_more H navs cons) (update (JRef (S (length H))) f).
Proof.
  intros st (p & a & ->). unfold update, set_heap. simpl.
  rewrite lookup_second, insert_second. simpl. now eexists _, _.
Qed.

Lemma preserves_delete_first k :
  preserves (two_more H navs cons) (delete_ (JRef (length H)) k).
Proof.
  intros st (p & a & ->). unfold delete_, set_heap. simpl.
  rewrite lookup_first, insert_first. simpl. now eexists _, _.
Qed.

Lemma buildQueryParams_two_more (query : JsValue) (deleteEmptyParams : bool) :
  two_more H navs cons
    (snd (buildQueryParams query deleteEmptyParams (mkState H navs cons))).
Proof.
  unfold buildQueryParams.
  unfold bind at 1, spread, alloc, set_heap. simpl.
  unfold bind at 1, alloc, set_heap. simpl.
  rewrite length_app. simpl.
  replace (length H + 1)%nat with (S (length H)) by lia.
  rewrite <- app_assoc. simpl.
  match goal with
  | |- two_more _ _ _ (snd (?m ?st)) =>
      cut (preserves (two_more H navs cons) m);
      [intros Hp; apply Hp; now eexists _, _|]
  end.
  unfold get, set.
  apply preserves_bind.
  - apply preserves_for_in. intros k acc.
    apply preserves_bind; [apply preserves_pure|]. intros value.
    apply preserves_bind.
    { apply preserves_when, preserves_delete_first. }
    intros _. apply preserves_bind; [apply preserves_pure|]. intros value'.
    apply preserves_when, preserves_bind.
    + apply preserves_update_second.
    + intros _. apply preserves_delete_first.
  - intros _. apply preserves_bind; [apply preserves_new_URLSearchParams|].
    intros sp.
    apply preserves_bind; [|intros sp'; apply preserves_ret].
    apply preserves_for_in. intros k acc.
    apply preserves_bind; [apply preserves_pure|]. intros value.
    apply preserves_bind; [apply preserves_inspect|]. intros elements.
    apply preserves_forEach. intros element sp'. apply preserves_append.
Qed.

End TwoCells.

(** C10. [buildQueryParams] leaves every object that the caller can see
    as it was: whatever the query and the flag, the store afterwards is
    the store before with two new cells after it, the copy [params] and
    [paramsAsArray]; so the reference that the caller passed, like every
    other reference, still denotes the same object with the same
    properties, and nothing was navigated or logged. *)
Theorem buildQueryParams_leaves_query (query : JsValue)
  (deleteEmptyParams : bool) (st : State) :
  let st' := snd (buildQueryParams query deleteEmptyParams st) in
  (exists params paramsAsArray,
     heap st' = heap st ++ [params; paramsAsArray]) /\
  (forall l o, heap st !! l = Some o -> heap st' !! l = Some o) /\
  (forall o, deref (heap st) query = Some o -> deref (heap st') query = Some o) /\
  navigations st' = navigations st /\ console st' = console st.
Proof.
  destruct st as [H navs cons]. intros st'.
  destruct (buildQueryParams_two_more H navs cons query deleteEmptyParams)
    as (p & a & Hst).
  subst st'. rewrite Hst. cbn [heap navigations console].
  assert (Hold : forall l o, H !! l = Some o -> (H ++ [p; a]) !! l = Some o).
  { intros l o Hl. rewrite lookup_app_l; [exact Hl|].
    eapply lookup_lt_Some; eauto. }
  split; [now exists p, a|]. split; [exact Hold|]. split; [|split; reflexivity].
  intros o. destruct query; try discriminate. unfold deref. apply Hold.
Qed.

(** ** [buildQueryParams]: the query string *)

(** *** Keys *)

Lemma existsb_eqb_false (k : string) (ks : list string) :
  existsb (String.eqb k) ks = false -> ~ In k ks.
Proof.
  induction ks as [|k' ks IH]; simpl; [tauto|].
  intros H [E|E].
  - subst k'. now rewrite String.eqb_refl in H.
  - apply orb_false_iff in H. now apply IH.
Qed.

Lemma distinct_NoDup (ks : list string) : distinct ks = true -> List.NoDup ks.
Proof.
  induction ks as [|k ks IH]; simpl; intros H; constructor;
    apply andb_true_iff in H; destruct H as [H1 H2].
  - apply existsb_eqb_false. now apply negb_true_iff.
  - now apply IH.
Qed.

Lemma ordered_before (A B : list string) (k : string) :
  enumeration_ordered (A ++ k :: B) = true ->
  forall a, In a A -> enumerated_before k a = false.
Proof.
  induction A as [|a0 A IH]; simpl; [tauto|].
  intros H a [E|E];
    apply andb_true_iff in H; destruct H as [H1 H2].
  - subst a0. rewrite forallb_app in H1. simpl in H1.
    apply andb_true_iff in H1. destruct H1 as [_ H1].
    apply andb_true_iff in H1. destruct H1 as [H1 _].
    now apply negb_true_iff.
  - now apply IH.
Qed.

Lemma ordered_tail (k : string) (ks : list string) :
  enumeration_ordered (k :: ks) = true ->
  (forall k', In k' ks -> enumerated_before k' k = false) /\
  enumeration_ordered ks = true.
Proof.
  simpl. intros H. apply andb_true_iff in H. destruct H as [H1 H2].
  split; [|exact H2]. intros k' Hk'.
  rewrite forallb_forall in H1. apply negb_true_iff. now apply H1.
Qed.

Lemma NoDup_middle (P R : list (string * JsValue)) (k : string) (v : JsValue) :
  List.NoDup (map fst (P ++ (k, v) :: R)) ->
  ~ In k (map fst P) /\ ~ In k (map fst R) /\ List.NoDup (map fst (P ++ R)).
Proof.
  rewrite !map_app. simpl. intros H.
  pose proof (NoDup_remove_1 _ _ _ H) as H1.
  pose proof (NoDup_remove_2 _ _ _ H) as H2.
  split; [|split; [|exact H1]]; intros Hin; apply H2, in_or_app; tauto.
Qed.

(** *** Property lists *)

Lemma prop_has_absent k ps : ~ In k (map fst ps) -> prop_has k ps = false.
Proof.
  induction ps as [|[k' v'] ps IH]; simpl; [reflexivity|].
  intros H. destruct (String.eqb k k') eqn:E; simpl.
  - apply String.eqb_eq in E. subst. tauto.
  - apply IH. tauto.
Qed.

Lemma prop_has_keys k ps : prop_has k ps = true <-> In k (map fst ps).
Proof.
  split.
  - induction ps as [|[k' v'] ps IH]; simpl; [discriminate|].
    intros H. apply orb_true_iff in H. destruct H as [H|H].
    + apply String.eqb_eq in H. now left.
    + right. now apply IH.
  - intros Hin. destruct (prop_has k ps) eqn:E; [reflexivity|].
    exfalso. revert Hin. induction ps as [|[k' v'] ps IH]; simpl; [tauto|].
    simpl in E. apply orb_false_iff in E. destruct E as [E1 E2].
    intros [->|Hin]; [now rewrite String.eqb_refl in E1|now apply IH].
Qed.

Lemma prop_get_not_has k ps : prop_has k ps = false -> prop_get k ps = JUndefined.
Proof.
  induction ps as [|[k' v'] ps IH]; simpl; [reflexivity|].
  intros H. apply orb_false_iff in H. destruct H as [E H].
  rewrite E. now apply IH.
Qed.

(** Reading a plain object finds its own properties and nothing else. *)
Lemma cell_get_plain k ps : cell_get k (mkObj PlainObject ps) = prop_get k ps.
Proof.
  unfold cell_get. simpl. destruct (prop_has k ps) eqn:E; [reflexivity|].
  symmetry. now apply prop_get_not_has.
Qed.

Lemma cell_has_plain k ps : cell_has k (mkObj PlainObject ps) = prop_has k ps.
Proof. unfold cell_has. simpl. apply orb_false_r. Qed.

Lemma cell_keys_plain ps : cell_keys (mkObj PlainObject ps) = map fst ps.
Proof. unfold cell_keys. simpl. apply app_nil_r. Qed.

(** An assignment through a key other than [__proto__] is an ordinary
    one. *)
Lemma assign_ordinary k x o :
  k <> "__proto__" -> assign k x o = mkObj (class o) (prop_set k x (props o)).
Proof.
  intros Hk. unfold assign.
  destruct (String.eqb k "__proto__") eqn:E; [|reflexivity].
  apply String.eqb_eq in E. contradiction.
Qed.

Lemma prop_has_present k v P R : prop_has k (P ++ (k, v) :: R) = true.
Proof.
  induction P as [|[k' v'] P IH]; simpl.
  - now rewrite String.eqb_refl.
  - rewrite IH. apply orb_true_r.
Qed.

Lemma prop_get_present k v P R :
  ~ In k (map fst P) -> prop_get k (P ++ (k, v) :: R) = v.
Proof.
  induction P as [|[k' v'] P IH]; simpl; intros H.
  - now rewrite String.eqb_refl.
  - destruct (String.eqb k k') eqn:E.
    + apply String.eqb_eq in E. subst. tauto.
    + apply IH. tauto.
Qed.

Lemma prop_get_absent k ps : ~ In k (map fst ps) -> prop_get k ps = JUndefined.
Proof.
  induction ps as [|[k' v'] ps IH]; simpl; [reflexivity|].
  intros H. destruct (String.eqb k k') eqn:E.
  - apply String.eqb_eq in E. subst. tauto.
  - apply IH. tauto.
Qed.

Lemma prop_delete_absent k ps : ~ In k (map fst ps) -> prop_delete k ps = ps.
Proof.
  induction ps as [|[k' v'] ps IH]; simpl; [reflexivity|].
  intros H. destruct (String.eqb k k') eqn:E.
  - apply String.eqb_eq in E. subst. tauto.
  - f_equal. apply IH. tauto.
Qed.

Lemma prop_delete_present k v P R :
  ~ In k (map fst P) -> ~ In k (map fst R) ->
  prop_delete k (P ++ (k, v) :: R) = P ++ R.
Proof.
  intros HP HR. induction P as [|[k' v'] P IH]; simpl.
  - rewrite String.eqb_refl. now apply prop_delete_absent.
  - simpl in HP. destruct (String.eqb k k') eqn:E.
    + apply String.eqb_eq in E. subst. tauto.
    + f_equal. apply IH. tauto.
Qed.

Lemma prop_add_last k v ps :
  (forall a, In a (map fst ps) -> enumerated_before k a = false) ->
  prop_add k v ps = ps ++ [(k, v)].
Proof.
  induction ps as [|[k' v'] ps IH]; simpl; [reflexivity|].
  intros H. rewrite (H k') by tauto. f_equal. apply IH. intros a Ha. apply H. tauto.
Qed.

Lemma prop_set_last k v ps :
  ~ In k (map fst ps) ->
  (forall a, In a (map fst ps) -> enumerated_before k a = false) ->
  prop_set k v ps = ps ++ [(k, v)].
Proof.
  intros Hk Hord. unfold prop_set.
  rewrite prop_has_absent by exact Hk. now apply prop_add_last.
Qed.

(** Copying a well-formed property list onto an empty object gives the
    same list. *)
Lemma assign_all_app (R P : list (string * JsValue)) :
  List.NoDup (map fst (P ++ R)) ->
  enumeration_ordered (map fst (P ++ R)) = true ->
  assign_all R P = P ++ R.
Proof.
  revert P. induction R as [|[k v] R IH]; intros P Hnd Hord; simpl.
  - now rewrite app_nil_r.
  - unfold assign_all in *. simpl.
    destruct (NoDup_middle P R k v Hnd) as (HP & HR & _).
    rewrite prop_set_last.
    + rewrite IH; rewrite <- app_assoc; simpl; auto.
    + exact HP.
    + rewrite map_app in Hord. simpl in Hord.
      exact (ordered_before _ _ _ Hord).
Qed.

Lemma well_formed_parts (ps : list (string * JsValue)) :
  well_formed ps = true ->
  List.NoDup (map fst ps) /\ enumeration_ordered (map fst ps) = true /\
  prop_has "__proto__" ps = false /\ forallb plain_data (map snd ps) = true.
Proof.
  unfold well_formed. rewrite !andb_true_iff, negb_true_iff.
  intros [[[Hd Hord] Hproto] Hprint]. auto using distinct_NoDup.
Qed.

Lemma assign_all_well_formed (ps : list (string * JsValue)) :
  well_formed ps = true -> assign_all ps [] = ps.
Proof.
  intros H. destruct (well_formed_parts ps H) as (Hd & Hord & _).
  now apply (assign_all_app ps []).
Qed.

(** *** Appending to the search parameters *)

Lemma plain_data_printable (h : list Obj) :
  forall v, plain_data v = true -> printable h v = true.
Proof.
  fix IH 1. intros [| | | | |elems|fields| | |l]; simpl; try reflexivity.
  - induction elems as [|e es IHes]; simpl; [reflexivity|].
    rewrite !andb_true_iff. intros [He Hes]. split; [now apply IH|now apply IHes].
  - trivial.
  - discriminate.
Qed.

Lemma append_run sp k v (st : State) :
  plain_data v = true ->
  URLSearchParams_append sp k v st = (Normal (sp ++ [(k, ToString v)]), st).
Proof.
  intros Hv. unfold URLSearchParams_append, ToUSVString, bind.
  now rewrite (plain_data_printable (heap st) v Hv).
Qed.

Lemma append_all (k : string) (elements : list JsValue) (sp : URLSearchParams)
  (st : State) :
  forallb plain_data elements = true ->
  forEach elements sp (fun element sp => URLSearchParams_append sp k element) st
  = (Normal (sp ++ map (fun e => (k, ToString e)) elements), st).
Proof.
  revert sp. induction elements as [|e es IH]; intros sp Hes; simpl.
  - unfold ret. now rewrite app_nil_r.
  - simpl in Hes. apply andb_true_iff in Hes. destruct Hes as [He Hes].
    unfold bind at 1. rewrite append_run by exact He.
    rewrite IH by exact Hes. now rewrite <- app_assoc.
Qed.

Lemma append_record (ps : list (string * JsValue)) (sp : URLSearchParams)
  (st : State) :
  forallb plain_data (map snd ps) = true ->
  forEach ps sp (fun '(k, v) sp => URLSearchParams_append sp k v) st
  = (Normal (sp ++ map (fun '(k, v) => (k, ToString v)) ps), st).
Proof.
  revert sp. induction ps as [|[k v] ps IH]; intros sp Hps; simpl.
  - unfold ret. now rewrite app_nil_r.
  - simpl in Hps. apply andb_true_iff in Hps. destruct Hps as [Hv Hps].
    unfold bind at 1. rewrite append_run by exact Hv.
    rewrite IH by exact Hps. now rewrite <- app_assoc.
Qed.

Lemma plain_data_filter (f : string * JsValue -> bool) (ps : list (string * JsValue)) :
  forallb plain_data (map snd ps) = true ->
  forallb plain_data (map snd (List.filter f ps)) = true.
Proof.
  induction ps as [|p ps IH]; simpl; [reflexivity|].
  intros H. apply andb_true_iff in H. destruct H as [Hp Hps].
  destruct (f p); simpl; [rewrite Hp|]; now apply IH.
Qed.

(** *** The two working objects *)

Section QueryString.

Variable H : list Obj.
Variable navs : list string.
Variable cons : list LogEntry.

Let params : JsValue := JRef (length H).
Let paramsAsArray : JsValue := JRef (S (length H)).

(** The state in which the two working objects hold [ps] and [arr]. *)
Let working (ps arr : list (string * JsValue)) : State :=
  mkState (H ++ [mkObj PlainObject ps; mkObj PlainObject arr]) navs cons.

Lemma has_params k ps arr :
  has params k (working ps arr) = (Normal (prop_has k ps), working ps arr).
Proof.
  unfold has, working, params. cbn [heap]. now rewrite lookup_first, cell_has_plain.
Qed.

Lemma get_params k ps arr :
  get params k (working ps arr) = (Normal (prop_get k ps), working ps arr).
Proof.
  unfold get, working, params. cbn [heap]. now rewrite lookup_first, cell_get_plain.
Qed.

Lemma delete_params k ps arr :
  delete_ params k (working ps arr) = (Normal tt, working (prop_delete k ps) arr).
Proof.
  unfold delete_, working, params, set_heap. simpl.
  now rewrite lookup_first, insert_first.
Qed.

Lemma has_paramsAsArray k ps arr :
  has paramsAsArray k (working ps arr) = (Normal (prop_has k arr), working ps arr).
Proof.
  unfold has, working, paramsAsArray. cbn [heap].
  now rewrite lookup_second, cell_has_plain.
Qed.

Lemma get_paramsAsArray k ps arr :
  get paramsAsArray k (working ps arr) = (Normal (prop_get k arr), working ps arr).
Proof.
  unfold get, working, paramsAsArray. cbn [heap].
  now rewrite lookup_second, cell_get_plain.
Qed.

Lemma set_paramsAsArray k v ps arr :
  k <> "__proto__" ->
  set paramsAsArray k v (working ps arr) =
    (Normal tt, working ps (prop_set k v arr)).
Proof.
  intros Hk. unfold set, update, working, paramsAsArray, set_heap.
  cbn [heap navigations console].
  now rewrite lookup_second, insert_second, assign_ordinary.
Qed.

Lemma keys_params ps arr :
  enumerable_keys params (working ps arr) = (Normal (map fst ps), working ps arr).
Proof.
  unfold enumerable_keys, working, params. cbn [heap].
  now rewrite lookup_first, cell_keys_plain.
Qed.

Lemma keys_paramsAsArray ps arr :
  enumerable_keys paramsAsArray (working ps arr) =
    (Normal (map fst arr), working ps arr).
Proof.
  unfold enumerable_keys, working, paramsAsArray. cbn [heap].
  now rewrite lookup_second, cell_keys_plain.
Qed.

Lemma new_URLSearchParams_params ps arr :
  forallb plain_data (map snd ps) = true ->
  new_URLSearchParams params (working ps arr) =
    (Normal (map (fun '(k, v) => (k, ToString v)) ps), working ps arr).
Proof.
  intros Hps. unfold new_URLSearchParams, own_props, working, params.
  cbn [heap]. rewrite lookup_first. cbn [props].
  now rewrite append_record.
Qed.

(** *** The first loop *)

Lemma kept_not_array d k v R :
  Array_isArray v = false -> (d && empty_param v) = false ->
  kept_params d ((k, v) :: R) = (k, v) :: kept_params d R.
Proof. intros Ha He. unfold kept_params. simpl. now rewrite Ha, He. Qed.

Lemma first_loop_run (d : bool) (R P A : list (string * JsValue)) :
  List.NoDup (map fst (P ++ R)) ->
  enumeration_ordered (map fst R) = true ->
  ~ In "__proto__" (map fst R) ->
  (forall k, In k (map fst R) -> ~ In k (map fst A)) ->
  (forall k a, In k (map fst R) -> In a (map fst A) ->
               enumerated_before k a = false) ->
  for_in_keys params (map fst R) tt
    (fun param _ =>
       value <- get params param ;;
       when (d && match value with
                  | JUndefined | JNull | JString "" => true
                  | _ => false
                  end)
            (delete_ params param) ;;
       value <- get params param ;;
       when (Array_isArray value)
            (set paramsAsArray param value ;;
             delete_ params param))%js
    (working (P ++ R) A)
  = (Normal tt, working (P ++ kept_params d R) (A ++ array_params R)).
Proof.
  revert P A. induction R as [|[k v] R IH]; intros P A Hnd Hord Hproto Hfresh Hlast.
  - simpl. unfold ret. now rewrite !app_nil_r.
  - destruct (NoDup_middle P R k v Hnd) as (HP & HR & Hnd').
    assert (Hk0 : k <> "__proto__") by (intros ->; apply Hproto; now left).
    assert (Hproto' : ~ In "__proto__" (map fst R))
      by (intros Hin; apply Hproto; now right).
    destruct (ordered_tail k (map fst R) Hord) as [Hk Hord'].
    cbn [map fst for_in_keys].
    unfold bind at 1. rewrite has_params, prop_has_present.
    unfold bind at 1. unfold bind at 1.
    rewrite get_params, prop_get_present by exact HP.
    change (match v with
            | JUndefined | JNull | JString "" => true
            | _ => false
            end) with (empty_param v).
    destruct (d && empty_param v) eqn:Hempty.
    + (* an empty parameter is deleted, and is no array *)
      assert (Hv : Array_isArray v = false).
      { apply andb_true_iff in Hempty. destruct Hempty as [_ He].
        destruct v; try reflexivity; discriminate. }
      unfold when at 1. unfold bind at 1.
      rewrite delete_params, prop_delete_present by assumption.
      unfold bind at 1. rewrite get_params.
      rewrite prop_get_absent
        by (rewrite map_app; intros Hin; apply in_app_or in Hin; tauto).
      unfold Array_isArray at 1, when at 1, ret at 1.
      rewrite IH; auto.
      * unfold kept_params, array_params. simpl. now rewrite Hempty, Hv.
      * intros k' Hk'. apply Hfresh. simpl. tauto.
      * intros k' a Hk'. apply Hlast. simpl. tauto.
    + unfold when at 1, ret at 1. unfold bind at 1. unfold bind at 1.
      rewrite get_params, prop_get_present by exact HP.
      destruct (Array_isArray v) eqn:Hv.
      * (* an array moves to paramsAsArray *)
        unfold when at 1. unfold bind at 1.
        rewrite set_paramsAsArray, delete_params by exact Hk0.
        rewrite prop_delete_present by assumption.
        rewrite prop_set_last.
        -- rewrite IH; auto.
           ++ unfold kept_params, array_params. simpl.
              rewrite Hempty, Hv. simpl. now rewrite <- app_assoc.
           ++ intros k' Hk'. rewrite map_app. simpl. intros Hin.
              apply in_app_or in Hin. destruct Hin as [Hin|[->|[]]].
              ** revert Hin. apply Hfresh. simpl. tauto.
              ** tauto.
           ++ intros k' a Hk'. rewrite map_app. simpl. intros Hin.
              apply in_app_or in Hin. destruct Hin as [Hin|[<-|[]]].
              ** apply Hlast; simpl; tauto.
              ** now apply Hk.
        -- apply Hfresh. simpl. tauto.
        -- intros a Ha. apply Hlast; simpl; tauto.
      * (* a scalar stays *)
        unfold when at 1, ret at 1.
        replace (P ++ (k, v) :: R) with ((P ++ [(k, v)]) ++ R)
          by (now rewrite <- app_assoc).
        rewrite IH; auto.
        -- rewrite kept_not_array by assumption.
           unfold array_params. simpl. rewrite Hv.
           now rewrite <- app_assoc.
        -- now rewrite <- app_assoc.
        -- intros k' Hk'. apply Hfresh. simpl. tauto.
        -- intros k' a Hk'. apply Hlast. simpl. tauto.
Qed.

(** *** The second loop *)

Lemma forEach_if_length_array (elems : list JsValue) (st : State) :
  forEach_if_length (JArray elems) st = (Normal elems, st).
Proof. reflexivity. Qed.

Lemma second_loop_run (A2 A1 ps : list (string * JsValue)) (sp : URLSearchParams) :
  List.NoDup (map fst (A1 ++ A2)) ->
  Forall (fun p => Array_isArray (snd p) = true) A2 ->
  forallb plain_data (map snd A2) = true ->
  for_in_keys paramsAsArray (map fst A2) sp
    (fun param searchParams =>
       value <- get paramsAsArray param ;;
       elements <- forEach_if_length value ;;
       forEach elements searchParams (fun element searchParams =>
         URLSearchParams_append searchParams param element))%js
    (working ps (A1 ++ A2))
  = (Normal (sp ++ array_entries A2), working ps (A1 ++ A2)).
Proof.
  revert A1 sp. induction A2 as [|[k v] A2 IH]; intros A1 sp Hnd Harr Hprint.
  - simpl. unfold ret. now rewrite !app_nil_r.
  - destruct (NoDup_middle A1 A2 k v Hnd) as (HP & _ & _).
    inversion Harr as [|? ? Hv Harr']; subst. simpl in Hv.
    destruct v as [| | | | |elems| | | |]; try discriminate Hv.
    simpl in Hprint. apply andb_true_iff in Hprint.
    destruct Hprint as [Helems Hprint].
    cbn [map fst for_in_keys].
    unfold bind at 1. rewrite has_paramsAsArray, prop_has_present.
    unfold bind at 1. unfold bind at 1.
    rewrite get_paramsAsArray, prop_get_present by exact HP.
    unfold bind at 1. rewrite forEach_if_length_array.
    rewrite append_all by exact Helems.
    replace (A1 ++ (k, JArray elems) :: A2)
      with ((A1 ++ [(k, JArray elems)]) ++ A2) in *
      by (now rewrite <- app_assoc).
    rewrite IH by assumption.
    unfold array_entries. simpl. now rewrite <- app_assoc.
Qed.

Lemma Forall_array_params (ps : list (string * JsValue)) :
  Forall (fun p => Array_isArray (snd p) = true) (array_params ps).
Proof.
  apply List.Forall_forall. intros [k v] Hin.
  unfold array_params in Hin. apply filter_In in Hin. tauto.
Qed.

Lemma array_entries_array_params (ps : list (string * JsValue)) :
  array_entries (array_params ps) = array_entries ps.
Proof.
  unfold array_entries, array_params.
  induction ps as [|[k v] ps IH]; simpl; [reflexivity|].
  destruct v; simpl; rewrite IH; reflexivity.
Qed.

Lemma NoDup_array_params (ps : list (string * JsValue)) :
  List.NoDup (map fst ps) -> List.NoDup (map fst (array_params ps)).
Proof.
  unfold array_params. induction ps as [|[k v] ps IH]; simpl; intros Hnd.
  - constructor.
  - inversion Hnd as [|? ? Hk Hnd']; subst.
    destruct (Array_isArray v); simpl; [|now apply IH].
    constructor; [|now apply IH].
    intros Hin. apply Hk. apply in_map_iff in Hin.
    destruct Hin as ([k' v'] & <- & Hin). apply filter_In in Hin.
    apply in_map_iff. exists (k', v'). tauto.
Qed.

(** *** The whole function, on a well-formed object of the store *)

Lemma buildQueryParams_run (l : loc) (o : Obj) (d : bool) :
  H !! l = Some o ->
  well_formed (props o) = true ->
  buildQueryParams (JRef l) d (mkState H navs cons) =
    (Normal (URLSearchParams_toString
               (map (fun '(k, v) => (k, ToString v)) (kept_params d (props o))
                ++ array_entries (props o))),
     working (kept_params d (props o)) (array_params (props o))).
Proof.
  intros Hl Hwf.
  destruct (well_formed_parts _ Hwf) as (Hd & Hord & Hproto & Hprint).
  assert (Hnone : ~ In "__proto__" (map fst (props o))).
  { intros Hin. apply prop_has_keys in Hin. rewrite Hin in Hproto. discriminate. }
  unfold buildQueryParams.
  unfold bind at 1, spread, alloc, own_props, set_heap. cbn [heap navigations console].
  rewrite Hl, assign_all_well_formed by exact Hwf.
  unfold bind at 1, alloc, set_heap. cbn [heap navigations console].
  rewrite length_app. simpl length.
  replace (length H + 1)%nat with (S (length H)) by lia.
  rewrite <- app_assoc. simpl app.
  fold params paramsAsArray. fold (working (props o) []).
  unfold bind at 1, for_in at 1. unfold bind at 1.
  rewrite keys_params.
  assert (Hloop := first_loop_run d (props o) [] []).
  cbn [app] in Hloop.
  rewrite Hloop;
    [|assumption|assumption|assumption|intros k _ []|intros k a _ []].
  clear Hloop.
  unfold bind at 1.
  rewrite new_URLSearchParams_params by (now apply plain_data_filter).
  unfold bind at 1, for_in at 1. unfold bind at 1.
  rewrite keys_paramsAsArray.
  assert (Hloop := second_loop_run (array_params (props o)) []).
  cbn [app] in Hloop. rewrite Hloop.
  - unfold ret. now rewrite array_entries_array_params.
  - now apply NoDup_array_params.
  - apply Forall_array_params.
  - now apply plain_data_filter.
Qed.

End QueryString.

(** *** The entries under one key *)

Lemma entries_of_app k sp1 sp2 :
  entries_of k (sp1 ++ sp2) = entries_of k sp1 ++ entries_of k sp2.
Proof. unfold entries_of. apply List.filter_app. Qed.

Lemma entries_of_other_array k k' (elems : list JsValue) :
  k' <> k -> entries_of k (map (fun e => (k', ToString e)) elems) = [].
Proof.
  intros Hne. unfold entries_of. induction elems as [|e es IH]; simpl; [reflexivity|].
  destruct (String.eqb k' k) eqn:E; [|exact IH].
  apply String.eqb_eq in E. contradiction.
Qed.

Lemma entries_of_absent k ps :
  ~ In k (map fst ps) ->
  entries_of k (scalar_entries ps) = [] /\ entries_of k (array_entries ps) = [].
Proof.
  unfold scalar_entries, kept_params, array_entries.
  induction ps as [|[k' v'] ps IH]; simpl; intros Hk; [split; reflexivity|].
  assert (Hne : k' <> k) by tauto.
  destruct IH as [IH1 IH2]; [tauto|]. split.
  - destruct (negb (empty_param v') && negb (Array_isArray v')); simpl; [|exact IH1].
    destruct (String.eqb k' k) eqn:E; [|exact IH1].
    apply String.eqb_eq in E. contradiction.
  - rewrite entries_of_app, IH2, app_nil_r.
    destruct v'; try reflexivity. now apply entries_of_other_array.
Qed.

Lemma scalar_entries_cons k v ps :
  scalar_entries ((k, v) :: ps) =
    (if negb (empty_param v) && negb (Array_isArray v)
     then [(k, ToString v)] else []) ++ scalar_entries ps.
Proof.
  unfold scalar_entries, kept_params. simpl.
  destruct (negb (empty_param v) && negb (Array_isArray v)); reflexivity.
Qed.

Lemma array_entries_cons k v ps :
  array_entries ((k, v) :: ps) =
    match v with
    | JArray elems => map (fun e => (k, ToString e)) elems
    | _ => []
    end ++ array_entries ps.
Proof. reflexivity. Qed.

Lemma entries_of_one k k' (s : string) :
  entries_of k [(k', s)] = if String.eqb k' k then [(k', s)] else [].
Proof. reflexivity. Qed.

Lemma entries_of_same_array k (elems : list JsValue) :
  entries_of k (map (fun e => (k, ToString e)) elems) =
    map (fun e => (k, ToString e)) elems.
Proof.
  unfold entries_of. induction elems as [|e es IH]; simpl; [reflexivity|].
  rewrite String.eqb_refl. now rewrite IH.
Qed.

Lemma eqb_neq (k k' : string) : k' <> k -> String.eqb k' k = false.
Proof.
  intros Hne. destruct (String.eqb k' k) eqn:E; [|reflexivity].
  apply String.eqb_eq in E. contradiction.
Qed.

Lemma entries_of_scalar k v ps :
  List.NoDup (map fst ps) -> In (k, v) ps ->
  entries_of k (scalar_entries ps) =
    if negb (empty_param v) && negb (Array_isArray v)
    then [(k, ToString v)] else [].
Proof.
  induction ps as [|[k' v'] ps IH]; intros Hnd Hin; [destruct Hin|].
  simpl in Hnd. inversion Hnd as [|? ? Hk' Hnd']; subst.
  rewrite scalar_entries_cons, entries_of_app.
  destruct Hin as [E|Hin].
  - inversion E; subst. clear E IH.
    rewrite (proj1 (entries_of_absent k ps Hk')), app_nil_r.
    destruct (negb (empty_param v) && negb (Array_isArray v)); [|reflexivity].
    rewrite entries_of_one. now rewrite String.eqb_refl.
  - assert (Hne : k' <> k).
    { intros ->. apply Hk'. apply in_map_iff. now exists (k, v). }
    rewrite (IH Hnd' Hin).
    destruct (negb (empty_param v') && negb (Array_isArray v')); [|reflexivity].
    rewrite entries_of_one. now rewrite eqb_neq.
Qed.

Lemma entries_of_array k v ps :
  List.NoDup (map fst ps) -> In (k, v) ps ->
  entries_of k (array_entries ps) =
    match v with
    | JArray elems => map (fun e => (k, ToString e)) elems
    | _ => []
    end.
Proof.
  induction ps as [|[k' v'] ps IH]; intros Hnd Hin; [destruct Hin|].
  simpl in Hnd. inversion Hnd as [|? ? Hk' Hnd']; subst.
  rewrite array_entries_cons, entries_of_app.
  destruct Hin as [E|Hin].
  - inversion E; subst. clear E IH.
    rewrite (proj2 (entries_of_absent k ps Hk')), app_nil_r.
    destruct v; try reflexivity. apply entries_of_same_array.
  - assert (Hne : k' <> k).
    { intros ->. apply Hk'. apply in_map_iff. now exists (k, v). }
    rewrite (IH Hnd' Hin).
    destruct v'; try reflexivity. now rewrite entries_of_other_array.
Qed.

(** In the query string of a well-formed object, a parameter contributes
    nothing when it is empty, its elements in their order when it is an
    array, and its one value otherwise. *)
Lemma entries_of_param k v ps :
  List.NoDup (map fst ps) -> In (k, v) ps ->
  entries_of k (scalar_entries ps ++ array_entries ps) =
    if empty_param v then []
    else match v with
         | JArray elems => map (fun e => (k, ToString e)) elems
         | _ => [(k, ToString v)]
         end.
Proof.
  intros Hnd Hin.
  rewrite entries_of_app, (entries_of_scalar k v ps Hnd Hin),
    (entries_of_array k v ps Hnd Hin).
  destruct v as [| | | |s| | | | |]; try reflexivity.
  destruct s; reflexivity.
Qed.

(** C9, as amended. For a query object of the store that has no
    parameter named [__proto__] and whose values are data that can be
    converted to strings, [buildQueryParams(query, true)], the call of the
    read operation, returns the serialization of: the scalar parameters that are
    neither [undefined], [null] nor the empty string, in their order, and
    then the elements of the array parameters, each under the key of its
    parameter.  So an empty parameter has no entry, an array parameter has
    one entry for each element, and any other parameter has one entry.  The
    query [{ tags: ["a", "b"], name: "" }] gives [tags=a&tags=b]. *)
Theorem buildQueryParams_query_string (l : loc) (st : State) (o : Obj) :
  heap st !! l = Some o ->
  well_formed (props o) = true ->
  let entries := scalar_entries (props o) ++ array_entries (props o) in
  fst (buildQueryParams (JRef l) true st) =
    Normal (URLSearchParams_toString entries) /\
  (forall k v, In (k, v) (props o) ->
     entries_of k entries =
       if empty_param v then []
       else match v with
            | JArray elems => map (fun e => (k, ToString e)) elems
            | _ => [(k, ToString v)]
            end) /\
  fst (buildQueryParams (JRef 0%nat) true Sample.one_query) =
    Normal "tags=a&tags=b".
Proof.
  intros Hl Hwf entries. destruct st as [H navs cons]. simpl in Hl.
  split; [|split].
  - rewrite (buildQueryParams_run H navs cons l o true Hl Hwf). reflexivity.
  - intros k v Hin. apply entries_of_param; [|exact Hin].
    now destruct (well_formed_parts _ Hwf) as (Hd & _).
  - reflexivity.
Qed.

(** * Concrete runs *)

Import Sample.

(** Scenario A: status 404 with the body [{"reason":"missing"}]; the read
    operation returns [undefined] after [interceptError] has logged a
    [NotFoundError] that holds the parsed body. *)
Example read_404 :
  getAsync false JSON_parse_fragment (fetch_settles (Normal response_404))
           "/items/9" JUndefined JUndefined empty_state =
    let e := mkObj NotFoundError
               [("body", JObject [("reason", JString "missing")]);
                ("headers", JObject [("content-type", JString "application/json")])] in
    (Normal JUndefined, mkState [e] [] [mkLog (JRef 0%nat) (Some e)]).
Proof. reflexivity. Qed.

(** Scenario B: status 201 with the body [{"id":7}]. *)
Example create_201 :
  postAsync false JSON_parse_fragment JSON_stringify_none
            (fetch_settles (Normal response_201)) "/items" JNull empty_state =
    (Normal (mkResult true (JObject [("id", JNumber 7)]) JUndefined), empty_state).
Proof. reflexivity. Qed.

(** Status 401 with an empty body: one navigation to the root. *)
Example create_401 :
  navigations
    (snd (postAsync false JSON_parse_fragment JSON_stringify_none
            (fetch_settles (Normal (mkResponse 401 [] (Normal EmptyString))))
            "/items" JNull empty_state)) = ["/"].
Proof. reflexivity. Qed.

(** C3, counterexample. When [fetch] rejects with a [TypeError], the
    [AppError] that the handler builds has that [TypeError] as its body,
    and the error in the [Result] of [postAsync] has a body too, in a
    debug build and in a non-debug build: the body is not absent. *)
Lemma transport_fault_body_counterexample :
  ~ (forall (fault : JsValue) (st : State),
       instance_of (heap st) fault AppError = false ->
       exists l o st',
         handleUnexpectedError fault st = (Throw (JRef l), st') /\
         heap st' !! l = Some o /\ class o = AppError /\
         absent (prop_get "body" (props o)) = true /\
         absent (prop_get "headers" (props o)) = true) /\
  (forall DEBUG,
     ~ (exists l o st',
          postAsync DEBUG JSON_parse_fragment JSON_stringify_none
                    (fetch_settles (Throw network_fault)) "/items" JNull
                    empty_state = (Normal (mkResult false JNull (JRef l)), st') /\
          heap st' !! l = Some o /\
          absent (prop_get "body" (props o)) = true)).
Proof.
  split.
  - intros Hclaim.
    destruct (Hclaim network_fault empty_state eq_refl)
      as (l & o & st' & Hrun & Hl & _ & Hbody & _).
    vm_compute in Hrun. inversion Hrun; subst; clear Hrun.
    vm_compute in Hl. inversion Hl; subst; clear Hl.
    discriminate Hbody.
  - intros DEBUG (l & o & st' & Hrun & Hl & Hbody).
    destruct DEBUG; vm_compute in Hrun; inversion Hrun; subst; clear Hrun;
      vm_compute in Hl; inversion Hl; subst; clear Hl; discriminate Hbody.
Qed.

(** C4, counterexample. In a non-debug build, for an [AppError] with a
    diagnostic body, the entry of the console shows the placeholder, and
    so does the logged object afterwards: neither has the body that the
    error had when it was passed in. *)
Lemma log_before_redaction_counterexample :
  ~ (forall (DEBUG : bool) (l : loc) (st : State) (o : Obj),
       heap st !! l = Some o ->
       subclass (class o) AppError = true ->
       exists entry o',
         last (console (snd (interceptError DEBUG (JRef l) st))) = Some entry /\
         (rendered entry = Some o' \/
          deref (heap (snd (interceptError DEBUG (JRef l) st))) (logged entry)
            = Some o') /\
         prop_get "body" (props o') = prop_get "body" (props o)).
Proof.
  intros Hclaim.
  destruct (Hclaim false 0%nat (one_error AppError) _ eq_refl eq_refl)
    as (entry & o' & Hlast & Hlogged & Hbody).
  vm_compute in Hlast. inversion Hlast; subst; clear Hlast.
  vm_compute in Hlogged.
  destruct Hlogged as [Ho'|Ho']; inversion Ho'; subst; discriminate Hbody.
Qed.


(** C9, counterexample. The query [{"__proto__":["a"]}] that [JSON.parse]
    gives has one array parameter, with one element.  The assignment
    [paramsAsArray[param] = params[param]] makes the array the prototype
    of [paramsAsArray], the second loop finds the inherited index [0], and
    the call of [forEach] on the string under it throws: there is no query
    string.  Without such a parameter, the query [{"filter":{"toString":1}}]
    has one scalar parameter, and [new URLSearchParams(params)] throws
    when it converts the value to a string. *)
Lemma buildQueryParams_proto_counterexample :
  ~ (forall (l : loc) (st : State) (o : Obj),
       heap st !! l = Some o ->
       distinct (map fst (props o)) = true ->
       enumeration_ordered (map fst (props o)) = true ->
       serializes (props o) (fst (buildQueryParams (JRef l) true st))) /\
  (exists message,
     fst (buildQueryParams (JRef 0%nat) true (mkState [proto_query] [] [])) =
       Throw (TypeError message)) /\
  ~ (forall (l : loc) (st : State) (o : Obj),
       heap st !! l = Some o ->
       distinct (map fst (props o)) = true ->
       enumeration_ordered (map fst (props o)) = true ->
       prop_has "__proto__" (props o) = false ->
       serializes (props o) (fst (buildQueryParams (JRef l) true st))) /\
  (exists message,
     fst (buildQueryParams (JRef 0%nat) true (mkState [opaque_query] [] [])) =
       Throw (TypeError message)).
Proof.
  split; [|split; [eexists; reflexivity|split; [|eexists; reflexivity]]].
  - intros Hclaim.
    destruct (Hclaim 0%nat (mkState [proto_query] [] []) proto_query
                eq_refl eq_refl eq_refl) as (sp & Hrun & _).
    vm_compute in Hrun. discriminate Hrun.
  - intros Hclaim.
    destruct (Hclaim 0%nat (mkState [opaque_query] [] []) opaque_query
                eq_refl eq_refl eq_refl eq_refl) as (sp & Hrun & _).
    vm_compute in Hrun. discriminate Hrun.
Qed.

(** ** The theorems at concrete inputs *)

Lemma status_table_witness :
  command JSON_parse_fragment JSON_stringify_none
          (fetch_settles (Normal response_404)) "POST" "/items" JNull empty_state =
    rejected_with NotFoundError
      (JObject [("reason", JString "missing")])
      (JObject [("content-type", JString "application/json")]) empty_state.
Proof.
  destruct (status_table JSON_parse_fragment JSON_stringify_none
              (fetch_settles (Normal response_404)) "POST" "/items" JNull JUndefined
              response_404 body_404 empty_state eq_refl eq_refl eq_refl)
    as (body & Hbody & Hcommand & _ & _ & _ & H404 & _).
  - vm_compute. discriminate.
  - vm_compute in Hbody. inversion Hbody; subst body.
    rewrite Hcommand. apply H404. reflexivity.
Defined.

Lemma parseBody_never_raises_witness :
  parseBody JSON_parse_fragment "<html>" empty_state =
    (Normal (JObject [("bodyText", JString "<html>")]), empty_state).
Proof.
  destruct (parseBody_never_raises JSON_parse_fragment "<html>" empty_state)
    as (body & Hrun & _ & _ & Hwrap).
  - intros v. vm_compute. discriminate.
  - rewrite Hrun. rewrite Hwrap; [reflexivity|discriminate|].
    intros v. vm_compute. discriminate.
Defined.

Lemma transport_fault_wrapped_witness :
  exists st',
    deleteAsync false JSON_parse_fragment JSON_stringify_none
                (fetch_settles (Throw network_fault)) "/items/9" JNull empty_state =
      (Normal (mkResult false JNull (JRef 0%nat)), st') /\
    heap st' !! 0%nat =
      Some (mkObj AppError [("body", JString "Technical error");
                            ("headers", JNull)]).
Proof.
  destruct (transport_fault_wrapped false JSON_parse_fragment JSON_stringify_none
              (fetch_settles (Throw network_fault)) "/items/9" JNull JUndefined
              network_fault empty_state eq_refl (fun _ => eq_refl) eq_refl)
    as (_ & Hverbs).
  destruct (Hverbs deleteAsync) as (st' & Hrun & Hheap & _).
  - simpl. tauto.
  - exists st'. split; [exact Hrun|exact Hheap].
Defined.

Lemma interceptError_logs_after_redaction_witness :
  exists o' st',
    interceptError false (JRef 0%nat) (one_error AppError) =
      (Normal (mkResult false JNull (JRef 0%nat)), st') /\
    console st' = [mkLog (JRef 0%nat) (Some o')] /\
    prop_get "body" (props o') = JString "Technical error".
Proof.
  destruct (interceptError_logs_after_redaction false 0%nat (one_error AppError)
              _ eq_refl)
    as (o' & st' & Hrun & Hlog & _ & Hbody).
  exists o', st'. split; [exact Hrun|]. split; [exact Hlog|exact Hbody].
Defined.

Lemma interceptError_redaction_witness :
  heap (snd (interceptError false (JRef 0%nat) (one_error BadRequestError))) =
    heap (one_error BadRequestError).
Proof.
  destruct (interceptError_redaction false 0%nat (one_error BadRequestError)
              _ eq_refl)
    as (_ & _ & Hnamed & _).
  apply Hnamed; [reflexivity|]. left. reflexivity.
Defined.

Lemma interceptError_navigation_witness :
  exists r st',
    interceptError true (JRef 0%nat) (one_error UnauthorizedError) = (Normal r, st') /\
    succeeded r = false /\ navigations st' = ["/"].
Proof.
  destruct (interceptError_navigation true 0%nat (one_error UnauthorizedError)
              _ eq_refl)
    as (r & st' & Hrun & Hfailed & _ & _ & _ & Hnav & _).
  exists r, st'. split; [exact Hrun|]. split; [exact Hfailed|].
  apply Hnav. reflexivity.
Defined.

Lemma handleUnexpectedError_always_rejects_witness :
  handleUnexpectedError (JRef 0%nat) (one_error NotFoundError) =
    (Throw (JRef 0%nat), one_error NotFoundError).
Proof.
  apply (proj2 (handleUnexpectedError_always_rejects (JRef 0%nat)
                  (one_error NotFoundError))).
  reflexivity.
Defined.

Lemma buildQueryParams_query_string_witness :
  fst (buildQueryParams (JRef 0%nat) true (mkState [mixed_query] [] [])) =
    Normal "page=2&q=a+b&flag=false&1=7&tags=x&tags=null".
Proof.
  destruct (buildQueryParams_query_string 0%nat (mkState [mixed_query] [] [])
              mixed_query eq_refl eq_refl)
    as (Hrun & _ & _).
  rewrite Hrun. reflexivity.
Defined.

Lemma buildQueryParams_leaves_query_witness :
  deref (heap (snd (buildQueryParams (JRef 0%nat) true one_query))) (JRef 0%nat) =
    Some tags_query.
Proof.
  destruct (buildQueryParams_leaves_query (JRef 0%nat) true one_query)
    as (_ & _ & Hquery & _).
  apply Hquery. reflexivity.
Defined.

(** * Further properties *)

(** ** The verbs, end to end *)

Lemma insert_fresh (h : list Obj) (o o' : Obj) :
  <[length h := o']> (h ++ [o]) = h ++ [o'].
Proof. rewrite insert_app_r_alt by lia. now rewrite Nat.sub_diag. Qed.

Lemma redacted_new_error (C : Class) (b h : JsValue) :
  redacted (mkObj C [("body", b); ("headers", h)]) =
    mkObj C [("body", JString "Technical error"); ("headers", h)].
Proof. reflexivity. Qed.

Lemma error_class_unauthorized (s : Z) :
  subclass (error_class s) UnauthorizedError = (s =? Status.Unauthorized).
Proof.
  unfold error_class, Status.BadRequest, Status.Unauthorized, Status.NotFound.
  destruct (s =? 400) eqn:E1.
  - apply Z.eqb_eq in E1. subst. reflexivity.
  - destruct (s =? 401); [reflexivity|].
    destruct (s =? 404); reflexivity.
Qed.

Section Verbs.

Variable DEBUG : bool.
Variable JSON_parse : string -> Completion JsValue.
Variable JSON_stringify : JsValue -> Completion JsValue.
Variable fetch : string -> RequestInit -> Completion Response.

Lemma parseBody_decode (bodyText : string) (st : State) :
  parseBody JSON_parse bodyText st = (Normal (decode JSON_parse bodyText), st).
Proof. exact (parseBody_run JSON_parse bodyText st). Qed.

Lemma handleResponse_decoded (response : Response) (bodyText : string) (st : State) :
  text response = Normal bodyText ->
  handleResponse JSON_parse response st =
    if isError response then
      rejected_with (error_class (status response))
        (default_null (decode JSON_parse bodyText))
        (readHeaders (response_headers response)) st
    else
      (Normal (mkAppResponse (default_null (decode JSON_parse bodyText))
                             (readHeaders (response_headers response))), st).
Proof.
  intros Htext.
  exact (handleResponse_run JSON_parse response bodyText _ st Htext
           (parseBody_decode bodyText st)).
Qed.

(** The chain after [fetch], on a settled request. *)
Lemma chain_resolved (response : Response) (bodyText : string) (st : State) :
  text response = Normal bodyText ->
  catch (r <- settled (Normal response) ;; handleResponse JSON_parse r)
        handleUnexpectedError st =
    handleResponse JSON_parse response st.
Proof.
  intros Htext. rewrite <- (chain_run JSON_parse response bodyText st Htext).
  reflexivity.
Qed.

Lemma chain_unreadable (response : Response) (fault : JsValue) (st : State) :
  text response = Throw fault ->
  catch (r <- settled (Normal response) ;; handleResponse JSON_parse r)
        handleUnexpectedError st =
    handleUnexpectedError fault st.
Proof.
  intros Htext. unfold catch, bind at 1, settled.
  now rewrite (handleResponse_text_fails JSON_parse response fault st Htext).
Qed.

Lemma verbs_unfold verb method (url : string) (b : JsValue) :
  In (verb, method) verbs ->
  verb DEBUG JSON_parse JSON_stringify fetch url b =
    catch (response <- command JSON_parse JSON_stringify fetch method url b ;;
           ret (new_Result true (body response) JUndefined))
          (fun error => interceptError DEBUG error).
Proof.
  intros [E|[E|[E|[]]]]; inversion E; subst; reflexivity.
Qed.

Lemma verb_fulfils verb method (url : string) (b : JsValue) (st st1 : State) r :
  In (verb, method) verbs ->
  command JSON_parse JSON_stringify fetch method url b st = (Normal r, st1) ->
  verb DEBUG JSON_parse JSON_stringify fetch url b st =
    (Normal (mkResult true (body r) JUndefined), st1).
Proof.
  intros Hin Hc. rewrite (verbs_unfold verb method url b Hin).
  unfold catch at 1, bind at 1. now rewrite Hc.
Qed.

Lemma verb_intercepts verb method (url : string) (b : JsValue) (st st1 : State) e :
  In (verb, method) verbs ->
  command JSON_parse JSON_stringify fetch method url b st = (Throw e, st1) ->
  verb DEBUG JSON_parse JSON_stringify fetch url b st = interceptError DEBUG e st1.
Proof.
  intros Hin Hc. rewrite (verbs_unfold verb method url b Hin).
  unfold catch at 1, bind at 1. now rewrite Hc.
Qed.

(** [interceptError] on the error that was just built. *)
Lemma intercept_new_error (C : Class) (b h : JsValue) (st : State) :
  let l := length (heap st) in
  let e := mkObj C [("body", if redacts DEBUG C then JString "Technical error" else b);
                    ("headers", h)] in
  interceptError DEBUG (JRef l)
    (set_heap (heap st ++ [mkObj C [("body", b); ("headers", h)]]) st) =
    (Normal (mkResult false JNull (JRef l)),
     mkState (heap st ++ [e])
             (navigations st ++ if subclass C UnauthorizedError then ["/"] else [])
             (console st ++ [mkLog (JRef l) (Some e)])).
Proof.
  intros l e. subst l e.
  erewrite interceptError_run by (simpl; apply lookup_fresh).
  cbn [class heap navigations console set_heap].
  destruct (redacts DEBUG C).
  - now rewrite insert_fresh, redacted_new_error.
  - reflexivity.
Qed.

(** X1. A 2xx response gives [Result(true, body)] and has no effect at all:
    the payload is the decoded body ([null] in place of [undefined]), no
    object is created, nothing is logged, nothing is navigated.  The
    request was sent with the body [sent] that [stringifyBody] returned. *)
Theorem verb_success verb method (url : string) (b sent : JsValue)
  (response : Response) (bodyText : string) (st : State) :
  In (verb, method) verbs ->
  stringifyBody JSON_stringify b = Normal sent ->
  fetch url (mkInit method SameOrigin Headers sent) = Normal response ->
  text response = Normal bodyText ->
  200 <= status response <= 299 ->
  verb DEBUG JSON_parse JSON_stringify fetch url b st =
    (Normal (mkResult true (default_null (decode JSON_parse bodyText)) JUndefined),
     st).
Proof.
  intros Hin Hsent Hfetch Htext Hs.
  apply (verb_fulfils verb method url b st st
           (mkAppResponse (default_null (decode JSON_parse bodyText))
                          (readHeaders (response_headers response))) Hin).
  rewrite (command_sent JSON_parse JSON_stringify fetch method url b sent st Hsent).
  rewrite Hfetch.
  rewrite (chain_resolved response bodyText st Htext).
  rewrite (handleResponse_decoded response bodyText st Htext).
  unfold isError, Status.Ok, Status.Unassigned.
  destruct (status response <? 200) eqn:E1; [lia|].
  destruct (status response >? 299) eqn:E2; [lia|]. reflexivity.
Qed.

(** X2. A response with a status outside 200..299 gives a failed [Result]
    around one new error object: its class is the one of the status, its
    headers are those of the response, its body is the decoded body, or
    the placeholder when the class is [AppError] in a non-debug build.
    The object is logged once, and the page is navigated to the root
    exactly for status 401.  The request was sent with the body [sent]
    that [stringifyBody] returned. *)
Theorem verb_error_status verb method (url : string) (b sent : JsValue)
  (response : Response) (bodyText : string) (st : State) :
  In (verb, method) verbs ->
  stringifyBody JSON_stringify b = Normal sent ->
  fetch url (mkInit method SameOrigin Headers sent) = Normal response ->
  text response = Normal bodyText ->
  status response < 200 \/ 299 < status response ->
  let C := error_class (status response) in
  let l := length (heap st) in
  let e := mkObj C [("body", if redacts DEBUG C then JString "Technical error"
                             else default_null (decode JSON_parse bodyText));
                    ("headers", readHeaders (response_headers response))] in
  verb DEBUG JSON_parse JSON_stringify fetch url b st =
    (Normal (mkResult false JNull (JRef l)),
     mkState (heap st ++ [e])
             (navigations st ++ if status response =? 401 then ["/"] else [])
             (console st ++ [mkLog (JRef l) (Some e)])).
Proof.
  intros Hin Hsent Hfetch Htext Hs C l e.
  rewrite (verb_intercepts verb method url b st
             (set_heap (heap st ++
                [mkObj C [("body", default_null (decode JSON_parse bodyText));
                          ("headers", readHeaders (response_headers response))]]) st)
             (JRef l) Hin).
  - subst l. rewrite intercept_new_error. subst C e.
    now rewrite error_class_unauthorized.
  - rewrite (command_sent JSON_parse JSON_stringify fetch method url b sent st Hsent).
    rewrite Hfetch.
    rewrite (chain_resolved response bodyText st Htext).
    rewrite (handleResponse_decoded response bodyText st Htext).
    replace (isError response) with true; [reflexivity|].
    symmetry. unfold isError, Status.Ok, Status.Unassigned.
    apply orb_true_iff. lia.
Qed.

(** X3. When the body of a response cannot be read, the status does not
    count: the verb fails as for a transport fault, with a new [AppError]
    around the fault of [text()], also for status 200.  The request was
    sent with the body [sent] that [stringifyBody] returned. *)
Theorem verb_unreadable_body verb method (url : string) (b sent : JsValue)
  (response : Response) (fault : JsValue) (st : State) :
  In (verb, method) verbs ->
  stringifyBody JSON_stringify b = Normal sent ->
  fetch url (mkInit method SameOrigin Headers sent) = Normal response ->
  text response = Throw fault ->
  instance_of (heap st) fault AppError = false ->
  let l := length (heap st) in
  let e := mkObj AppError [("body", if DEBUG then default_null fault
                                    else JString "Technical error");
                           ("headers", JNull)] in
  verb DEBUG JSON_parse JSON_stringify fetch url b st =
    (Normal (mkResult false JNull (JRef l)),
     mkState (heap st ++ [e]) (navigations st)
             (console st ++ [mkLog (JRef l) (Some e)])).
Proof.
  intros Hin Hsent Hfetch Htext Hraw l e.
  rewrite (verb_intercepts verb method url b st
             (set_heap (heap st ++
                [mkObj AppError [("body", default_null fault); ("headers", JNull)]]) st)
             (JRef l) Hin).
  - subst l. rewrite intercept_new_error. simpl. rewrite app_nil_r.
    subst e. unfold redacts. now destruct DEBUG.
  - rewrite (command_sent JSON_parse JSON_stringify fetch method url b sent st Hsent).
    rewrite Hfetch.
    rewrite (chain_unreadable response fault st Htext).
    now apply handleUnexpectedError_wraps.
Qed.

(** X19. When [stringifyBody] throws, as [JSON.stringify] does on a
    [BigInt] and on a cyclic body, no request is sent and no [AppError] is
    built: whatever the transport would do, the verb hands the thrown
    value to [interceptError] as it is, so the failed [Result] carries the
    raw fault, not redacted in any build, and the console its one entry. *)
Theorem verb_serialization_fault verb method (url : string) (b e : JsValue)
  (st : State) :
  In (verb, method) verbs ->
  stringifyBody JSON_stringify b = Throw e ->
  deref (heap st) e = None ->
  absent e = false ->
  command JSON_parse JSON_stringify fetch method url b st = (Throw e, st) /\
  verb DEBUG JSON_parse JSON_stringify fetch url b st =
    (Normal (mkResult false JNull e),
     mkState (heap st) (navigations st) (console st ++ [mkLog e None])).
Proof.
  intros Hin Hthrown Hderef Hpresent.
  pose proof (command_not_sent JSON_parse JSON_stringify fetch method url b e st
                Hthrown) as Hcommand.
  split; [exact Hcommand|].
  rewrite (verb_intercepts verb method url b st st e Hin Hcommand).
  now apply interceptError_value.
Qed.

End Verbs.

(** ** What [buildQueryParams] throws *)

Lemma throws_only_ret {A} (P : JsValue -> Prop) (a : A) : throws_only P (ret a).
Proof. intros st e st' H. discriminate H. Qed.

Lemma throws_only_pure {A} (P : JsValue -> Prop) (f : State -> A)
  (g : State -> State) :
  throws_only P (fun st => (Normal (f st), g st)).
Proof. intros st e st' H. discriminate H. Qed.

Lemma throws_only_bind {A B} (P : JsValue -> Prop) (m : M A) (k : A -> M B) :
  throws_only P m -> (forall a, throws_only P (k a)) -> throws_only P (bind m k).
Proof.
  intros Hm Hk st e st'. unfold bind.
  destruct (m st) as [[a|e0] st1] eqn:E.
  - apply Hk.
  - intros H. inversion H; subst. exact (Hm st e st' E).
Qed.

Lemma throws_only_when (P : JsValue -> Prop) (b : bool) (m : M unit) :
  throws_only P m -> throws_only P (when b m).
Proof. intros H. destruct b; [exact H|apply throws_only_ret]. Qed.

Lemma throws_only_for_in_keys {A} (P : JsValue -> Prop) (o : JsValue)
  (body : string -> A -> M A) (keys : list string) (acc : A) :
  (forall k acc', throws_only P (body k acc')) ->
  throws_only P (for_in_keys o keys acc body).
Proof.
  intros Hbody. revert acc. induction keys as [|k keys IH]; intros acc; simpl.
  - apply throws_only_ret.
  - apply throws_only_bind; [apply (throws_only_pure P _ (fun st => st))|].
    intros present.
    apply throws_only_bind; [|intros acc'; apply IH].
    destruct present; [apply Hbody|apply throws_only_ret].
Qed.

Lemma throws_only_for_in {A} (P : JsValue -> Prop) (o : JsValue)
  (body : string -> A -> M A) (acc : A) :
  (forall k acc', throws_only P (body k acc')) -> throws_only P (for_in o acc body).
Proof.
  intros Hbody.
  apply throws_only_bind; [apply (throws_only_pure P _ (fun st => st))|].
  intros keys. now apply throws_only_for_in_keys.
Qed.

Lemma throws_only_forEach {A B} (P : JsValue -> Prop) (f : A -> B -> M B)
  (xs : list A) (acc : B) :
  (forall x acc', throws_only P (f x acc')) -> throws_only P (forEach xs acc f).
Proof.
  intros Hf. revert acc. induction xs as [|x xs IH]; intros acc; simpl.
  - apply throws_only_ret.
  - apply throws_only_bind; [apply Hf|]. intros acc'. apply IH.
Qed.

Lemma throws_TypeError_append sp k v :
  throws_only is_TypeError (URLSearchParams_append sp k v).
Proof.
  unfold URLSearchParams_append, ToUSVString.
  apply throws_only_bind; [|intros text; apply throws_only_ret].
  intros st e st' H.
  destruct (printable (heap st) v); inversion H; subst. now eexists.
Qed.

Lemma throws_TypeError_new_URLSearchParams o :
  throws_only is_TypeError (new_URLSearchParams o).
Proof.
  intros st. unfold new_URLSearchParams.
  apply throws_only_forEach. intros [k v] sp. apply throws_TypeError_append.
Qed.

Lemma throws_TypeError_update v f : throws_only is_TypeError (update v f).
Proof.
  intros st e st' H. unfold update in H.
  destruct v; inversion H; subst; now eexists.
Qed.

Lemma throws_TypeError_delete v k : throws_only is_TypeError (delete_ v k).
Proof.
  intros st e st' H. unfold delete_ in H.
  destruct v; try (inversion H; subst; now eexists).
  destruct (_ || _); inversion H; subst. now eexists.
Qed.

Lemma throws_TypeError_forEach v : throws_only is_TypeError (forEach_if_length v).
Proof.
  intros st e st' H. unfold forEach_if_length in H.
  destruct v as [| | | |s|elems|fields| | |l];
    try (inversion H; subst; now eexists).
  - destruct (String.eqb s ""); inversion H; subst. now eexists.
  - destruct (truthy _); inversion H; subst. now eexists.
  - destruct (heap st !! l) as [o|]; [|discriminate H].
    unfold cell_forEach_if_length in H.
    destruct (truthy _); [|discriminate H].
    destruct (class o); try (inversion H; subst; now eexists).
    destruct (prop_has _ _); inversion H; subst. now eexists.
Qed.

Lemma buildQueryParams_throws (query : JsValue) (deleteEmptyParams : bool) :
  throws_only is_TypeError (buildQueryParams query deleteEmptyParams).
Proof.
  unfold buildQueryParams.
  apply throws_only_bind; [unfold spread, alloc; apply throws_only_pure|].
  intros params.
  apply throws_only_bind; [unfold alloc; apply throws_only_pure|].
  intros paramsAsArray.
  apply throws_only_bind.
  - apply throws_only_for_in. intros k acc.
    apply throws_only_bind; [apply (throws_only_pure _ _ (fun st => st))|].
    intros value.
    apply throws_only_bind; [apply throws_only_when, throws_TypeError_delete|].
    intros _.
    apply throws_only_bind; [apply (throws_only_pure _ _ (fun st => st))|].
    intros value'.
    apply throws_only_when, throws_only_bind; [apply throws_TypeError_update|].
    intros _. apply throws_TypeError_delete.
  - intros _.
    apply throws_only_bind; [apply throws_TypeError_new_URLSearchParams|].
    intros sp.
    apply throws_only_bind; [|intros sp'; apply throws_only_ret].
    apply throws_only_for_in. intros k acc.
    apply throws_only_bind; [apply (throws_only_pure _ _ (fun st => st))|].
    intros value.
    apply throws_only_bind; [apply throws_TypeError_forEach|].
    intros elements. apply throws_only_forEach.
    intros element sp'. apply throws_TypeError_append.
Qed.

(** Whatever the query, [buildQueryParams] returns a string or throws a
    [TypeError], and the state then has the two working objects and
    nothing else new. *)
Lemma buildQueryParams_outcome (query : JsValue) (deleteEmptyParams : bool)
  (st : State) :
  exists c p a,
    buildQueryParams query deleteEmptyParams st =
      (c, mkState (heap st ++ [p; a]) (navigations st) (console st)) /\
    forall e, c = Throw e -> is_TypeError e.
Proof.
  destruct (buildQueryParams query deleteEmptyParams st) as [c st'] eqn:Hrun.
  destruct st as [H navs cons].
  destruct (buildQueryParams_two_more H navs cons query deleteEmptyParams)
    as (p & a & Hst).
  rewrite Hrun in Hst. simpl in Hst. subst st'. exists c, p, a.
  split; [reflexivity|]. intros e ->.
  exact (buildQueryParams_throws query deleteEmptyParams _ _ _ Hrun).
Qed.

(** ** One request *)

Section Requests.

Variable DEBUG : bool.
Variable JSON_parse : string -> Completion JsValue.
Variable JSON_stringify : JsValue -> Completion JsValue.
Variable fetch : string -> RequestInit -> Completion Response.

(** The two ways of [handleUnexpectedError]. *)
Lemma handleUnexpectedError_cases (error : JsValue) (st : State) :
  (exists l o, error = JRef l /\ heap st !! l = Some o /\
     subclass (class o) AppError = true /\
     handleUnexpectedError error st = (Throw (JRef l), st)) \/
  handleUnexpectedError error st =
    rejected_with AppError (default_null error) JNull st.
Proof.
  destruct (instance_of (heap st) error AppError) eqn:E.
  - left. rewrite handleUnexpectedError_rethrows by exact E.
    unfold instance_of, deref in E. destruct error; try discriminate.
    destruct (heap st !! l) as [o|] eqn:El; [|discriminate].
    now exists l, o.
  - right. now apply handleUnexpectedError_wraps.
Qed.

(** The chain after [fetch] fulfils with the state as it was, or rejects
    with an error object that was there, or rejects with one new error
    object; it has no other effect. *)
Lemma chain_effect (c : Completion Response) (st : State) :
  let settles := catch (r <- settled c ;; handleResponse JSON_parse r)
                       handleUnexpectedError st in
  (exists response, settles = (Normal response, st)) \/
  (exists l o, heap st !! l = Some o /\ subclass (class o) AppError = true /\
     settles = (Throw (JRef l), st)) \/
  (exists C b h, subclass C AppError = true /\
     settles = rejected_with C b h st).
Proof.
  intros settles. subst settles. unfold catch, bind, settled.
  assert (Hfault : forall fault,
    (exists l o, heap st !! l = Some o /\ subclass (class o) AppError = true /\
       handleUnexpectedError fault st = (Throw (JRef l), st)) \/
    (exists C b h, subclass C AppError = true /\
       handleUnexpectedError fault st = rejected_with C b h st)).
  { intros fault.
    destruct (handleUnexpectedError_cases fault st) as [(l & o & _ & Hl & Ho & H)|H].
    - left. now exists l, o.
    - right. now exists AppError, (default_null fault), JNull. }
  destruct c as [response|fault]; cbv beta iota.
  - destruct (handleResponse_outcome JSON_parse response st)
      as [[r H]|[(C & b & h & HC & H)|[e H]]]; rewrite H.
    + left. now exists r.
    + right; right. exists C, b, h. split; [exact HC|].
      unfold rejected_with. cbv beta iota.
      apply handleUnexpectedError_rethrows. simpl.
      unfold instance_of, deref. now rewrite lookup_fresh.
    + right. apply Hfault.
  - right. apply Hfault.
Qed.

(** X5. [command] touches nothing that the caller can see except that it may
    add one error object to the store: the state afterwards is the state
    before, or the state before with one instance of [AppError] more; it
    never navigates and never logs. *)
Theorem command_effect (method url : string) (b : JsValue) (st : State) :
  let st' := snd (command JSON_parse JSON_stringify fetch method url b st) in
  st' = st \/
  exists o, subclass (class o) AppError = true /\
            st' = set_heap (heap st ++ [o]) st.
Proof.
  intros st'. subst st'.
  destruct (stringifyBody JSON_stringify b) as [sent|e] eqn:Hsent.
  - rewrite (command_sent JSON_parse JSON_stringify fetch method url b sent st Hsent).
    destruct (chain_effect (fetch url (mkInit method SameOrigin Headers sent)) st)
      as [[r H]|[(l & o & _ & _ & H)|(C & bd & h & HC & H)]];
      cbv zeta in H; rewrite H.
    + now left.
    + now left.
    + right. eexists. split; [|reflexivity]. exact HC.
  - rewrite (command_not_sent JSON_parse JSON_stringify fetch method url b e st Hsent).
    now left.
Qed.

(** What [query] does before the request: nothing when the query is
    falsy, and otherwise the two working objects of [buildQueryParams]
    and the query string after a question mark, unless
    [buildQueryParams] throws, which ends [query] before the request. *)
Lemma query_prepared (url : string) (q headers : JsValue) (st : State) :
  (exists url' st0,
     query JSON_parse fetch url q headers st =
       catch (response <- settled (fetch url'
                            (mkInit Methods.Get SameOrigin
                                    match headers with
                                    | JUndefined => Headers
                                    | _ => headers
                                    end JUndefined)) ;;
              handleResponse JSON_parse response)
             handleUnexpectedError st0 /\
     navigations st0 = navigations st /\ console st0 = console st /\
     (forall l o, heap st !! l = Some o -> heap st0 !! l = Some o) /\
     (truthy q = false -> url' = url /\ st0 = st)) \/
  (exists e st0,
     query JSON_parse fetch url q headers st = (Throw e, st0) /\
     is_TypeError e /\ truthy q = true /\
     navigations st0 = navigations st /\ console st0 = console st).
Proof.
  destruct (truthy q) eqn:Hq.
  - destruct (buildQueryParams_outcome q true st) as (c & p & a & Hrun & Hthrown).
    destruct c as [qs|e].
    + left. eexists _, _. split.
      { unfold query. unfold bind at 1. rewrite Hq.
        unfold bind at 1. rewrite Hrun. unfold ret at 1. reflexivity. }
      simpl. split; [reflexivity|]. split; [reflexivity|]. split; [|discriminate].
      intros l o Hl. rewrite lookup_app_l; [exact Hl|].
      eapply lookup_lt_Some; eauto.
    + right. eexists _, _. split.
      { unfold query. unfold bind at 1. rewrite Hq.
        unfold bind at 1. rewrite Hrun. reflexivity. }
      split; [now apply Hthrown|]. auto.
  - left. exists url, st. split.
    { unfold query. unfold bind at 1. rewrite Hq. reflexivity. }
    repeat split; auto.
Qed.

(** [query] fulfils with a response, or rejects with something that is
    neither [undefined] nor [null]; it logs nothing and navigates
    nowhere. *)
Lemma query_outcome (url : string) (q headers : JsValue) (st : State) :
  (exists response st0,
     query JSON_parse fetch url q headers st = (Normal response, st0) /\
     navigations st0 = navigations st /\ console st0 = console st) \/
  (exists e st0,
     query JSON_parse fetch url q headers st = (Throw e, st0) /\
     absent e = false /\
     navigations st0 = navigations st /\ console st0 = console st).
Proof.
  destruct (query_prepared url q headers st)
    as [(url' & st0 & Hquery & Hnav & Hcons & _ & _)
       |(e & st0 & Hquery & [message ->] & _ & Hnav & Hcons)].
  - rewrite Hquery.
    destruct (chain_outcome JSON_parse
                (fetch url' (mkInit Methods.Get SameOrigin
                                    match headers with
                                    | JUndefined => Headers
                                    | _ => headers
                                    end JUndefined)) st0)
      as [[r H]|(l & o & st1 & H & Hl & _ & Hnav1 & Hcons1)];
      cbv zeta in H; rewrite H.
    + left. now exists r, st0.
    + right. exists (JRef l), st1. split; [reflexivity|]. split; [reflexivity|].
      split; congruence.
  - right. exists (TypeError message), st0. auto.
Qed.

(** X6. The read operation never rejects, on a query that is made of data.
    When [query] fulfils, it returns the body of that response and has
    logged and navigated nothing.  When [query] rejects, also when
    [buildQueryParams] throws before the request, it returns [undefined]
    after [interceptError] has returned its [Result] around the error and
    logged it, once. *)
Theorem getAsync_never_rejects (url : string) (q headers : JsValue) (st : State) :
  exists v st',
    getAsync DEBUG JSON_parse fetch url q headers st = (Normal v, st') /\
    ((exists response,
        query JSON_parse fetch url q headers st = (Normal response, st') /\
        v = body response /\
        navigations st' = navigations st /\ console st' = console st) \/
     (exists e st1 entry,
        query JSON_parse fetch url q headers st = (Throw e, st1) /\
        v = JUndefined /\
        interceptError DEBUG e st1 = (Normal (mkResult false JNull e), st') /\
        console st' = console st ++ [entry])).
Proof.
  unfold getAsync. unfold catch at 1, bind at 1.
  destruct (query_outcome url q headers st)
    as [(response & st0 & Hquery & Hnav & Hcons)
       |(e & st0 & Hquery & Hpresent & Hnav & Hcons)];
    rewrite Hquery.
  - exists (body response), st0. split; [reflexivity|]. left.
    exists response. auto.
  - destruct (interceptError_present DEBUG e st0 Hpresent)
      as (st' & entry & Hrun & Hlog).
    unfold bind at 1. rewrite Hrun.
    exists JUndefined, st'. split; [reflexivity|]. right.
    exists e, st0, entry. rewrite Hlog, Hcons. auto.
Qed.


(** X7. The read operation without a query, on a response whose body was
    read: for a status from 200 to 299 it returns the decoded body and has
    no effect; for any other status it returns [undefined], having built,
    redacted, logged and navigated as the verbs do. *)
Theorem getAsync_without_query (url : string) (q headers : JsValue)
  (response : Response) (bodyText : string) (st : State) :
  truthy q = false ->
  fetch url (mkInit Methods.Get SameOrigin
                    match headers with
                    | JUndefined => Headers
                    | _ => headers
                    end JUndefined) = Normal response ->
  text response = Normal bodyText ->
  let C := error_class (status response) in
  let l := length (heap st) in
  let e := mkObj C [("body", if redacts DEBUG C then JString "Technical error"
                             else default_null (decode JSON_parse bodyText));
                    ("headers", readHeaders (response_headers response))] in
  getAsync DEBUG JSON_parse fetch url q headers st =
    if isError response then
      (Normal JUndefined,
       mkState (heap st ++ [e])
               (navigations st ++ if status response =? 401 then ["/"] else [])
               (console st ++ [mkLog (JRef l) (Some e)]))
    else (Normal (default_null (decode JSON_parse bodyText)), st).
Proof.
  intros Hq Hfetch Htext C l e.
  destruct (query_prepared url q headers st)
    as [(url' & st0 & Hquery & _ & _ & _ & Hsame)|(? & ? & _ & _ & Hq' & _)];
    [|congruence].
  destruct (Hsame Hq) as [-> ->].
  unfold getAsync. unfold catch at 1, bind at 1. rewrite Hquery, Hfetch.
  rewrite (chain_resolved JSON_parse response bodyText st Htext).
  rewrite (handleResponse_decoded JSON_parse response bodyText st Htext).
  destruct (isError response); [|reflexivity].
  unfold rejected_with. cbv beta iota. unfold bind at 1.
  subst l. rewrite intercept_new_error. subst C e.
  now rewrite error_class_unauthorized.
Qed.

End Requests.

(** ** What a failed verb shows *)

Section Failures.

Variable JSON_parse : string -> Completion JsValue.
Variable JSON_stringify : JsValue -> Completion JsValue.
Variable fetch : string -> RequestInit -> Completion Response.

(** X4. Once [stringifyBody] has returned the body to send, no failed
    [Result] of a verb shows, in a non-debug build, the body of an
    unclassified error: whatever the transport does, the error of a
    failed [Result] is an instance of [AppError] in the store, and when it
    is exactly an [AppError] its body is the placeholder. *)
Theorem failed_verb_hides_generic_body verb method (url : string)
  (b sent : JsValue) (st st' : State) (r : Result) :
  In (verb, method) verbs ->
  stringifyBody JSON_stringify b = Normal sent ->
  verb false JSON_parse JSON_stringify fetch url b st = (Normal r, st') ->
  succeeded r = false ->
  exists l o,
    error r = JRef l /\ heap st' !! l = Some o /\
    subclass (class o) AppError = true /\
    (class o = AppError -> prop_get "body" (props o) = JString "Technical error").
Proof.
  intros Hin Hsent Hrun Hfailed.
  destruct (chain_outcome JSON_parse
              (fetch url (mkInit method SameOrigin Headers sent)) st)
    as [[r0 H]|(l & o & st1 & H & Hl & Ho & _)]; cbv zeta in H;
    rewrite <- (command_sent JSON_parse JSON_stringify fetch method url b sent st
                  Hsent) in H.
  - rewrite (verb_fulfils false JSON_parse JSON_stringify fetch verb method url b
               st st r0 Hin H) in Hrun.
    inversion Hrun; subst. discriminate Hfailed.
  - rewrite (verb_intercepts false JSON_parse JSON_stringify fetch verb method url b
               st st1 (JRef l) Hin H) in Hrun.
    rewrite (interceptError_run false l st1 o Hl) in Hrun.
    inversion Hrun; subst; clear Hrun. exists l. simpl.
    assert (Hlen : (l < length (heap st1))%nat) by (eapply lookup_lt_Some; eauto).
    unfold redacts. simpl.
    destruct (Class_eqb (class o) AppError) eqn:E.
    + exists (redacted o). split; [reflexivity|].
      split; [now apply list_lookup_insert_eq|]. split; [exact Ho|].
      intros _. apply prop_get_set_same.
    + exists o. split; [reflexivity|]. split; [exact Hl|]. split; [exact Ho|].
      intros HC. rewrite HC in E. discriminate E.
Qed.

(** X9. The class of the error that [handleResponse] rejects with tells the
    status: the error is new, the status is outside 200..299, and the
    class is [BadRequestError], [UnauthorizedError] or [NotFoundError]
    exactly for 400, 401 and 404. *)
Theorem rejected_class_tells_status (response : Response) (bodyText : string)
  (st st' : State) (e : JsValue) :
  text response = Normal bodyText ->
  handleResponse JSON_parse response st = (Throw e, st') ->
  exists o,
    e = JRef (length (heap st)) /\ heap st' !! length (heap st) = Some o /\
    heap st' = heap st ++ [o] /\
    (status response < 200 \/ 299 < status response) /\
    (class o = BadRequestError <-> status response = 400) /\
    (class o = UnauthorizedError <-> status response = 401) /\
    (class o = NotFoundError <-> status response = 404) /\
    (class o = AppError <->
       status response <> 400 /\ status response <> 401 /\ status response <> 404).
Proof.
  intros Htext Hrun.
  rewrite (handleResponse_decoded JSON_parse response bodyText st Htext) in Hrun.
  destruct (isError response) eqn:Herr; [|discriminate Hrun].
  unfold rejected_with in Hrun. inversion Hrun; subst; clear Hrun.
  eexists. split; [reflexivity|]. simpl.
  split; [apply lookup_fresh|]. split; [reflexivity|]. split.
  - unfold isError, Status.Ok, Status.Unassigned in Herr.
    apply orb_true_iff in Herr. lia.
  - unfold error_class, Status.BadRequest, Status.Unauthorized, Status.NotFound.
    destruct (Z.eqb_spec (status response) 400) as [E1|E1];
      [|destruct (Z.eqb_spec (status response) 401) as [E2|E2];
        [|destruct (Z.eqb_spec (status response) 404) as [E3|E3]]];
      repeat split; intros; try discriminate; try lia; try tauto.
Qed.

(** X8. The request of the read operation for a well-formed query object:
    the URL is the given one, a question mark and the query string, so a
    query whose parameters are all empty still adds the question mark; the
    rest is as without a query, in a store with the two working objects
    more. *)
Theorem query_request_url (url : string) (l : loc) (headers : JsValue)
  (st : State) (o : Obj) :
  heap st !! l = Some o ->
  well_formed (props o) = true ->
  let qs := URLSearchParams_toString
              (scalar_entries (props o) ++ array_entries (props o)) in
  let st0 := set_heap (heap st ++ [mkObj PlainObject (kept_params true (props o));
                                   mkObj PlainObject (array_params (props o))]) st in
  query JSON_parse fetch url (JRef l) headers st =
    catch (response <- settled (fetch (url +:+ "?" +:+ qs)
                         (mkInit Methods.Get SameOrigin
                                 match headers with
                                 | JUndefined => Headers
                                 | _ => headers
                                 end JUndefined)) ;;
           handleResponse JSON_parse response)
          handleUnexpectedError st0 /\
  ((forall k v, In (k, v) (props o) -> empty_param v = true) -> qs = "").
Proof.
  intros Hl Hwf qs st0. destruct st as [H navs cons]. simpl in Hl. split.
  - unfold query. unfold bind at 1. cbn [truthy]. unfold bind at 1.
    rewrite (buildQueryParams_run H navs cons l o true Hl Hwf). reflexivity.
  - intros Hempty. subst qs.
    assert (Hnone : forall ps, (forall k v, In (k, v) ps -> empty_param v = true) ->
                    scalar_entries ps = [] /\ array_entries ps = []).
    { induction ps as [|[k v] ps IH]; intros Hall; [split; reflexivity|].
      destruct IH as [IH1 IH2]; [intros k' v' Hin; apply (Hall k' v'); now right|].
      assert (Hv : empty_param v = true) by (apply (Hall k v); now left).
      rewrite scalar_entries_cons, array_entries_cons, IH1, IH2, Hv.
      destruct v; try discriminate; split; reflexivity. }
    destruct (Hnone (props o) Hempty) as [-> ->]. reflexivity.
Qed.

End Failures.

(** ** [buildQueryParams] without the flag *)

Lemma entries_of_other_one k k' (s : string) :
  k' <> k -> entries_of k [(k', s)] = [].
Proof. intros Hne. rewrite entries_of_one. now rewrite eqb_neq. Qed.

Lemma kept_params_cons d k v ps :
  map (fun '(k0, v0) => (k0, ToString v0)) (kept_params d ((k, v) :: ps)) =
    (if negb (d && empty_param v) && negb (Array_isArray v)
     then [(k, ToString v)] else []) ++
    map (fun '(k0, v0) => (k0, ToString v0)) (kept_params d ps).
Proof.
  unfold kept_params. simpl.
  destruct (negb (d && empty_param v) && negb (Array_isArray v)); reflexivity.
Qed.

Lemma entries_of_kept_absent d k ps :
  ~ In k (map fst ps) ->
  entries_of k (map (fun '(k0, v0) => (k0, ToString v0)) (kept_params d ps)) = [].
Proof.
  induction ps as [|[k' v'] ps IH]; intros Hk; [reflexivity|].
  simpl in Hk.
  rewrite kept_params_cons, entries_of_app, IH by tauto. rewrite app_nil_r.
  destruct (negb (d && empty_param v') && negb (Array_isArray v')); [|reflexivity].
  apply entries_of_other_one. tauto.
Qed.

Lemma entries_of_kept d k v ps :
  List.NoDup (map fst ps) -> In (k, v) ps ->
  entries_of k (map (fun '(k0, v0) => (k0, ToString v0)) (kept_params d ps)) =
    if negb (d && empty_param v) && negb (Array_isArray v)
    then [(k, ToString v)] else [].
Proof.
  induction ps as [|[k' v'] ps IH]; intros Hnd Hin; [destruct Hin|].
  simpl in Hnd. inversion Hnd as [|? ? Hk' Hnd']; subst.
  rewrite kept_params_cons, entries_of_app.
  destruct Hin as [E|Hin].
  - inversion E; subst. clear E IH.
    rewrite entries_of_kept_absent by exact Hk'. rewrite app_nil_r.
    destruct (negb (d && empty_param v) && negb (Array_isArray v)); [|reflexivity].
    rewrite entries_of_one. now rewrite String.eqb_refl.
  - assert (Hne : k' <> k).
    { intros ->. apply Hk'. apply in_map_iff. now exists (k, v). }
    rewrite (IH Hnd' Hin).
    destruct (negb (d && empty_param v') && negb (Array_isArray v')); [|reflexivity].
    now rewrite entries_of_other_one.
Qed.

(** X10. Called without the flag on a well-formed query object, which has
    no parameter named [__proto__] and whose values are data that can be
    converted to strings, [buildQueryParams] drops nothing: every
    parameter that is no array has exactly one entry, so [undefined],
    [null] and the empty string are sent as the texts [undefined], [null]
    and the empty value; the arrays follow as with the flag. *)
Theorem buildQueryParams_keeps_empty (l : loc) (st : State) (o : Obj) :
  heap st !! l = Some o ->
  well_formed (props o) = true ->
  let entries := map (fun '(k, v) => (k, ToString v)) (kept_params false (props o))
                 ++ array_entries (props o) in
  fst (buildQueryParams (JRef l) false st) =
    Normal (URLSearchParams_toString entries) /\
  (forall k v, In (k, v) (props o) ->
     entries_of k entries =
       match v with
       | JArray elems => map (fun e => (k, ToString e)) elems
       | _ => [(k, ToString v)]
       end).
Proof.
  intros Hl Hwf entries. destruct st as [H navs cons]. simpl in Hl. split.
  - rewrite (buildQueryParams_run H navs cons l o false Hl Hwf). reflexivity.
  - intros k v Hin. subst entries.
    destruct (well_formed_parts _ Hwf) as (Hd & _).
    rewrite entries_of_app, (entries_of_kept false k v (props o) Hd Hin),
      (entries_of_array k v (props o) Hd Hin).
    destruct v; reflexivity.
Qed.

(** ** The characters of the query string *)

Lemma string_forall_app p (s t : string) :
  string_forall p (s +:+ t) = string_forall p s && string_forall p t.
Proof.
  induction s as [|c s IH]; simpl; [reflexivity|].
  rewrite IH. now rewrite andb_assoc.
Qed.

Lemma percent_encode_chars (c : ascii) :
  string_forall query_string_char (percent_encode c) = true.
Proof. destruct c as [[] [] [] [] [] [] [] []]; reflexivity. Qed.

Lemma urlencode_chars (s : string) :
  string_forall query_string_char (urlencode s) = true.
Proof.
  induction s as [|c s IH]; simpl; [reflexivity|].
  rewrite string_forall_app, IH, andb_true_r.
  destruct (urlencoded_unreserved c) eqn:E.
  - simpl. unfold query_string_char. now rewrite E.
  - destruct (Ascii.eqb c " "); [reflexivity|apply percent_encode_chars].
Qed.

Lemma join_with_chars p (sep : string) (parts : list string) :
  string_forall p sep = true ->
  Forall (fun part => string_forall p part = true) parts ->
  string_forall p (join_with sep parts) = true.
Proof.
  intros Hsep Hparts. destruct parts as [|part parts]; [reflexivity|].
  simpl. inversion Hparts as [|? ? Hpart Hrest]; subst. clear Hparts.
  revert part Hpart. induction Hrest as [|q parts Hq Hrest IH]; intros part Hpart;
    simpl; [exact Hpart|].
  apply IH. now rewrite !string_forall_app, Hpart, Hsep, Hq.
Qed.

Lemma URLSearchParams_toString_chars (sp : URLSearchParams) :
  string_forall query_string_char (URLSearchParams_toString sp) = true.
Proof.
  unfold URLSearchParams_toString. apply join_with_chars; [reflexivity|].
  apply List.Forall_forall. intros part Hin. apply in_map_iff in Hin.
  destruct Hin as ([k v] & <- & _).
  now rewrite !string_forall_app, !urlencode_chars.
Qed.

(** X11. Whatever the query and the flag, a string that [buildQueryParams]
    returns is made of ASCII letters and digits and of [* - . _ % + = &]
    only: it has no space, no [?], no [#] and no byte outside ASCII, so it
    can follow the question mark of a URL as it is. *)
Theorem buildQueryParams_alphabet (query : JsValue) (deleteEmptyParams : bool)
  (st st' : State) (qs : string) :
  buildQueryParams query deleteEmptyParams st = (Normal qs, st') ->
  string_forall query_string_char qs = true.
Proof.
  unfold buildQueryParams.
  repeat match goal with
  | |- bind ?m ?k ?s = _ -> _ =>
      unfold bind at 1; destruct (m s) as [[?|?] ?]; [|discriminate]
  end.
  unfold ret. intros Hrun. inversion Hrun; subst.
  apply URLSearchParams_toString_chars.
Qed.

(** ** Assignments to one key *)

Lemma keys_prop_replace k v ps : map fst (prop_replace k v ps) = map fst ps.
Proof.
  induction ps as [|[k' v'] ps IH]; simpl; [reflexivity|].
  destruct (String.eqb k k') eqn:E; simpl.
  - apply String.eqb_eq in E. now subst.
  - now rewrite IH.
Qed.

Lemma keys_prop_add k v ps x :
  In x (map fst (prop_add k v ps)) <-> x = k \/ In x (map fst ps).
Proof.
  induction ps as [|[k' v'] ps IH]; simpl; [intuition|].
  destruct (enumerated_before k k'); simpl; [intuition|].
  rewrite IH. intuition.
Qed.

Lemma NoDup_prop_add k v ps :
  ~ In k (map fst ps) -> List.NoDup (map fst ps) ->
  List.NoDup (map fst (prop_add k v ps)).
Proof.
  induction ps as [|[k' v'] ps IH]; simpl; intros Hk Hnd.
  - constructor; [intros []|constructor].
  - destruct (enumerated_before k k'); simpl.
    + constructor; [simpl in *; tauto|exact Hnd].
    + inversion Hnd as [|? ? Hk' Hnd']; subst.
      constructor; [|apply IH; tauto].
      rewrite keys_prop_add. intros [->|Hin]; tauto.
Qed.

Lemma NoDup_prop_set k v ps :
  List.NoDup (map fst ps) -> List.NoDup (map fst (prop_set k v ps)).
Proof.
  intros Hnd. unfold prop_set. destruct (prop_has k ps) eqn:E.
  - now rewrite keys_prop_replace.
  - apply NoDup_prop_add; [|exact Hnd].
    intros Hin. apply prop_has_keys in Hin. congruence.
Qed.

Lemma prop_replace_replace k v1 v2 ps :
  prop_replace k v2 (prop_replace k v1 ps) = prop_replace k v2 ps.
Proof.
  induction ps as [|[k' v'] ps IH]; simpl; [reflexivity|].
  destruct (String.eqb k k') eqn:E; simpl.
  - now rewrite String.eqb_refl.
  - now rewrite E, IH.
Qed.

Lemma prop_replace_add k v1 v2 ps :
  prop_has k ps = false ->
  prop_replace k v2 (prop_add k v1 ps) = prop_add k v2 ps.
Proof.
  induction ps as [|[k' v'] ps IH]; simpl; intros Hk.
  - now rewrite String.eqb_refl.
  - apply orb_false_iff in Hk. destruct Hk as [E Hk].
    destruct (enumerated_before k k'); simpl.
    + now rewrite String.eqb_refl.
    + now rewrite E, IH.
Qed.

(** A second assignment to a key replaces the first. *)
Lemma prop_set_set k v1 v2 ps :
  prop_set k v2 (prop_set k v1 ps) = prop_set k v2 ps.
Proof.
  unfold prop_set at 2 3. destruct (prop_has k ps) eqn:E.
  - unfold prop_set.
    replace (prop_has k (prop_replace k v1 ps)) with true.
    + apply prop_replace_replace.
    + symmetry. apply prop_has_keys. rewrite keys_prop_replace.
      now apply prop_has_keys.
  - unfold prop_set.
    replace (prop_has k (prop_add k v1 ps)) with true.
    + now apply prop_replace_add.
    + symmetry. apply prop_has_keys. apply keys_prop_add. now left.
Qed.

(** ** [readHeaders] *)

Lemma keys_prop_set k v ps x :
  In x (map fst (prop_set k v ps)) <-> x = k \/ In x (map fst ps).
Proof.
  unfold prop_set. destruct (prop_has k ps) eqn:E.
  - rewrite keys_prop_replace. apply prop_has_keys in E.
    split; [tauto|]. intros [->|H]; assumption.
  - apply keys_prop_add.
Qed.

(** The object that [readHeaders] builds from the headers [hs], after
    [acc]: its keys, and the value under a key. *)
Lemma readHeaders_fold (hs : list (string * string)) (acc : list (string * JsValue)) :
  let step := fun headersObject '(key, value) =>
                props (assign key (JString value) (mkObj PlainObject headersObject)) in
  let fields := fold_left step hs acc in
  prop_has "__proto__" acc = false ->
  (List.NoDup (map fst acc) -> List.NoDup (map fst fields)) /\
  (forall k, In k (map fst fields) <->
             In k (map fst acc) \/ (In k (map fst hs) /\ k <> "__proto__")) /\
  (forall k, ~ In k (map fst hs) -> prop_get k fields = prop_get k acc) /\
  (forall k value before after,
     hs = before ++ (k, value) :: after -> ~ In k (map fst after) ->
     k <> "__proto__" -> prop_get k fields = JString value).
Proof.
  intros step fields. subst fields.
  revert acc. induction hs as [|[key value] hs IH]; intros acc Hacc.
  - simpl. split; [tauto|]. split; [tauto|]. split; [reflexivity|].
    intros k value before after E. now destruct before.
  - cbn [fold_left].
    destruct (String.eqb key "__proto__") eqn:Ekey.
    + (* the setter ignores the string *)
      assert (Hstep : step acc (key, value) = acc).
      { unfold step, assign. simpl. apply String.eqb_eq in Ekey. subst key.
        rewrite Hacc. reflexivity. }
      rewrite Hstep. destruct (IH acc Hacc) as (IH1 & IH2 & IH3 & IH4).
      apply String.eqb_eq in Ekey. subst key.
      split; [exact IH1|]. split; [|split].
      * intros k. rewrite IH2. simpl. intuition congruence.
      * intros k Hk. apply IH3. simpl in Hk. tauto.
      * intros k v before after E Hafter Hk.
        destruct before as [|[k0 v0] before]; simpl in E; inversion E; subst.
        -- contradiction.
        -- now apply (IH4 k v before after).
    + assert (Hkey : key <> "__proto__").
      { intros ->. now rewrite String.eqb_refl in Ekey. }
      assert (Hstep : step acc (key, value) = prop_set key (JString value) acc).
      { unfold step. now rewrite assign_ordinary. }
      rewrite Hstep.
      assert (Hacc' : prop_has "__proto__" (prop_set key (JString value) acc) = false).
      { destruct (prop_has "__proto__" (prop_set key (JString value) acc)) eqn:E;
          [|reflexivity].
        apply prop_has_keys, keys_prop_set in E. destruct E as [E|E].
        - congruence.
        - apply prop_has_keys in E. congruence. }
      destruct (IH _ Hacc') as (IH1 & IH2 & IH3 & IH4).
      split; [|split; [|split]].
      * intros Hnd. apply IH1. now apply NoDup_prop_set.
      * intros k. rewrite IH2, keys_prop_set. simpl.
        split.
        -- intros [[->|H]|[H1 H2]]; auto.
        -- intros [H|[[<-|H1] H2]]; auto.
      * intros k Hk. simpl in Hk. rewrite IH3 by tauto.
        apply prop_get_set_other. intros ->. tauto.
      * intros k v before after E Hafter Hk.
        destruct before as [|[k0 v0] before]; simpl in E; inversion E; subst.
        -- rewrite IH3 by exact Hafter. apply prop_get_set_same.
        -- now apply (IH4 k v before after).
Qed.

(** X12. [readHeaders] gives a plain object whose own properties are the
    header names other than [__proto__], each once, and the property of a
    name holds the value of its last occurrence in the collection.  A
    header named [__proto__] leaves no property: the assignment reaches
    the setter of the prototype, which ignores a string. *)
Theorem readHeaders_lookup (hs : list (string * string)) :
  exists fields,
    readHeaders hs = JObject fields /\
    List.NoDup (map fst fields) /\
    (forall k, In k (map fst fields) <-> In k (map fst hs) /\ k <> "__proto__") /\
    prop_has "__proto__" fields = false /\
    (forall k value before after,
       hs = before ++ (k, value) :: after -> ~ In k (map fst after) ->
       k <> "__proto__" ->
       prop_has k fields = true /\ prop_get k fields = JString value).
Proof.
  eexists. split; [reflexivity|].
  destruct (readHeaders_fold hs [] eq_refl) as (Hnd & Hkeys & _ & Hlast).
  assert (Hkeys' : forall k,
    In k (map fst (fold_left
                     (fun headersObject '(key, value) =>
                        props (assign key (JString value)
                                      (mkObj PlainObject headersObject))) hs []))
    <-> In k (map fst hs) /\ k <> "__proto__").
  { intros k. rewrite Hkeys. simpl. tauto. }
  split; [apply Hnd; constructor|]. split; [exact Hkeys'|]. split.
  - match goal with |- ?b = false => destruct b eqn:E; [|reflexivity] end.
    apply prop_has_keys, Hkeys' in E. tauto.
  - intros k value before after E Hafter Hk. split.
    + apply prop_has_keys, Hkeys'. split; [|exact Hk].
      rewrite E, map_app. simpl. apply in_or_app. right. now left.
    + now apply (Hlast k value before after).
Qed.

(** ** [addAuthorization] *)

(** X13. [addAuthorization] on a headers object of the store sets its
    [Authorization] property to the type followed by the value, keeps the
    class and every other property of the object, and touches no other
    object and neither effect. *)
Theorem addAuthorization_sets (l : loc) (type value : string) (st : State) (o : Obj) :
  heap st !! l = Some o ->
  exists o',
    addAuthorization (JRef l) type value st =
      (Normal tt, set_heap (<[l := o']> (heap st)) st) /\
    class o' = class o /\
    prop_get "Authorization" (props o') = JString (type +:+ value) /\
    (forall k, k <> "Authorization" -> prop_get k (props o') = prop_get k (props o)) /\
    (List.NoDup (map fst (props o)) -> List.NoDup (map fst (props o'))) /\
    (forall l', l' <> l -> <[l := o']> (heap st) !! l' = heap st !! l').
Proof.
  intros Hl. eexists. split.
  - unfold addAuthorization, set, update. rewrite Hl.
    rewrite assign_ordinary by discriminate. reflexivity.
  - simpl. split; [reflexivity|]. split; [apply prop_get_set_same|].
    split; [|split].
    + intros k Hk. apply prop_get_set_other. congruence.
    + apply NoDup_prop_set.
    + intros l' Hne. now apply list_lookup_insert_ne.
Qed.

(** X14. A second [addAuthorization] on the same headers object of the
    store replaces the first: after the two calls the object has one
    [Authorization] property, which holds the second type and value, and
    every other property as before; it is the object that the second call
    alone leaves. *)
Theorem addAuthorization_again (l : loc) (type1 value1 type2 value2 : string)
  (st : State) (o : Obj) :
  heap st !! l = Some o ->
  List.NoDup (map fst (props o)) ->
  exists o',
    (addAuthorization (JRef l) type1 value1 ;;
     addAuthorization (JRef l) type2 value2)%js st =
      (Normal tt, set_heap (<[l := o']> (heap st)) st) /\
    addAuthorization (JRef l) type2 value2 st =
      (Normal tt, set_heap (<[l := o']> (heap st)) st) /\
    class o' = class o /\
    prop_get "Authorization" (props o') = JString (type2 +:+ value2) /\
    In "Authorization" (map fst (props o')) /\
    List.NoDup (map fst (props o')) /\
    (forall k, k <> "Authorization" -> prop_get k (props o') = prop_get k (props o)).
Proof.
  intros Hl Hnd.
  exists (mkObj (class o)
            (prop_set "Authorization" (JString (type2 +:+ value2)) (props o))).
  assert (Hlen : (l < length (heap st))%nat) by (eapply lookup_lt_Some; eauto).
  assert (Hsecond : addAuthorization (JRef l) type2 value2 st =
    (Normal tt,
     set_heap (<[l := mkObj (class o)
                        (prop_set "Authorization" (JString (type2 +:+ value2))
                                  (props o))]> (heap st)) st)).
  { unfold addAuthorization, set, update. rewrite Hl.
    now rewrite assign_ordinary by discriminate. }
  split; [|split; [exact Hsecond|]].
  - unfold bind, addAuthorization, set, update. rewrite Hl.
    cbn [heap set_heap navigations console].
    rewrite list_lookup_insert_eq by exact Hlen.
    rewrite !assign_ordinary by discriminate. cbn [class props].
    now rewrite list_insert_insert_eq, prop_set_set.
  - cbn [class props]. split; [reflexivity|]. split; [apply prop_get_set_same|].
    split; [apply keys_prop_set; now left|].
    split; [now apply NoDup_prop_set|].
    intros k Hk. apply prop_get_set_other. congruence.
Qed.

(** X20. [addAuthorization] needs a headers object: on [undefined], on
    [null] and on a primitive the assignment throws a [TypeError], as in
    the strict code of a module, and nothing changes. *)
Theorem addAuthorization_no_object (headers : JsValue) (type value : string)
  (st : State) :
  match headers with
  | JUndefined | JNull | JBool _ | JNumber _ | JString _ => True
  | _ => False
  end ->
  exists message,
    addAuthorization headers type value st = (Throw (TypeError message), st).
Proof.
  intros Hprimitive. unfold addAuthorization, set, update.
  destruct headers; try contradiction; eexists; reflexivity.
Qed.

(** ** [interceptError] outside its type, and twice *)

(** X15. On a value that is no object of the store and is neither [undefined]
    nor [null], such as a [TypeError] caught as it is, [interceptError]
    neither navigates nor redacts in any build: it logs the value and
    returns it in a failed [Result]. *)
Theorem interceptError_not_an_object (DEBUG : bool) (v : JsValue) (st : State) :
  deref (heap st) v = None ->
  absent v = false ->
  interceptError DEBUG v st =
    (Normal (mkResult false JNull v),
     mkState (heap st) (navigations st) (console st ++ [mkLog v None])).
Proof.
  intros Hderef Hpresent. now apply interceptError_value.
Qed.

(** X16. On [undefined] and [null], [interceptError] throws a [TypeError] in a
    non-debug build, before it logs anything; in a debug build it logs
    and returns a failed [Result] without an error, which breaks the
    invariant of the envelope. *)
Theorem interceptError_nullish (v : JsValue) (st : State) :
  absent v = true ->
  (exists message, interceptError false v st = (Throw (TypeError message), st)) /\
  interceptError true v st =
    (Normal (mkResult false JNull v),
     mkState (heap st) (navigations st) (console st ++ [mkLog v None])) /\
  ~ Result_invariant (mkResult false JNull v).
Proof.
  intros Hv. destruct st as [h navs cons].
  destruct v; try discriminate Hv.
  - split; [eexists; reflexivity|]. split; [reflexivity|].
    intros [[_ H] _]. specialize (H eq_refl). discriminate H.
  - split; [eexists; reflexivity|]. split; [reflexivity|].
    intros [[_ H] _]. specialize (H eq_refl). discriminate H.
Qed.

Lemma redacted_twice (o : Obj) : redacted (redacted o) = redacted o.
Proof. unfold redacted. simpl. now rewrite prop_set_set. Qed.

(** X17. Intercepting the same error again changes nothing more in the store
    and returns the same [Result]; it logs the same rendering a second
    time, and navigates a second time for an [UnauthorizedError]. *)
Theorem interceptError_twice (DEBUG : bool) (l : loc) (st : State) (o : Obj) :
  heap st !! l = Some o ->
  let first := interceptError DEBUG (JRef l) st in
  let second := interceptError DEBUG (JRef l) (snd first) in
  fst second = fst first /\
  heap (snd second) = heap (snd first) /\
  (exists entry,
     console (snd first) = console st ++ [entry] /\
     console (snd second) = console st ++ [entry; entry]) /\
  navigations (snd second) =
    navigations st ++
      if subclass (class o) UnauthorizedError then ["/"; "/"] else [].
Proof.
  intros Hl first second. subst second first.
  assert (Hlen : (l < length (heap st))%nat) by (eapply lookup_lt_Some; eauto).
  rewrite (interceptError_run DEBUG l st o Hl). cbn [fst snd].
  destruct (redacts DEBUG (class o)) eqn:Hr.
  - erewrite interceptError_run
      by (cbn [heap]; apply list_lookup_insert_eq; exact Hlen).
    cbn [fst snd heap console navigations class redacted]. rewrite Hr.
    rewrite list_insert_insert_eq.
    change (mkObj (class o)
              (prop_set "body" (JString "Technical error") (props o)))
      with (redacted o).
    rewrite redacted_twice.
    split; [reflexivity|]. split; [reflexivity|]. split.
    + eexists. split; [reflexivity|]. now rewrite <- app_assoc.
    + rewrite <- app_assoc. f_equal.
      now destruct (subclass (class o) UnauthorizedError).
  - erewrite interceptError_run by (cbn [heap]; exact Hl).
    cbn [fst snd heap console navigations]. rewrite Hr.
    split; [reflexivity|]. split; [reflexivity|]. split.
    + eexists. split; [reflexivity|]. now rewrite <- app_assoc.
    + rewrite <- app_assoc. f_equal.
      now destruct (subclass (class o) UnauthorizedError).
Qed.

(** ** [handleUnexpectedError] after itself *)

(** X18. Handling the rejection of [handleUnexpectedError] once more changes
    nothing: a second [.catch(handleUnexpectedError)] in a chain rejects
    with the same error in the same state as the first alone. *)
Theorem handleUnexpectedError_idempotent (error : JsValue) (st : State) :
  catch (handleUnexpectedError error) handleUnexpectedError st =
    handleUnexpectedError error st.
Proof.
  unfold catch.
  destruct (handleUnexpectedError_run error st) as (l & o & st' & H & Hl & Ho & _).
  rewrite H. apply handleUnexpectedError_rethrows.
  unfold instance_of, deref. now rewrite Hl.
Qed.

(** ** The further properties at concrete inputs *)


Lemma verb_success_witness :
  putAsync true JSON_parse_fragment JSON_stringify_none
           (fetch_settles (Normal response_201)) "/items/7" JNull empty_state =
    (Normal (mkResult true (JObject [("id", JNumber 7)]) JUndefined), empty_state).
Proof.
  rewrite (verb_success true JSON_parse_fragment JSON_stringify_none
             (fetch_settles (Normal response_201)) putAsync Methods.Put
             "/items/7" JNull JUndefined response_201 body_201 empty_state).
  - reflexivity.
  - simpl. tauto.
  - reflexivity.
  - reflexivity.
  - reflexivity.
  - simpl. lia.
Defined.

Lemma verb_error_status_witness :
  postAsync false JSON_parse_fragment JSON_stringify_none
            (fetch_settles (Normal response_500)) "/items" JNull empty_state =
    let e := mkObj AppError
               [("body", JString "Technical error");
                ("headers", JObject [("x-request-id", JString "42")])] in
    (Normal (mkResult false JNull (JRef 0%nat)),
     mkState [e] [] [mkLog (JRef 0%nat) (Some e)]).
Proof.
  rewrite (verb_error_status false JSON_parse_fragment JSON_stringify_none
             (fetch_settles (Normal response_500)) postAsync Methods.Post
             "/items" JNull JUndefined response_500 "Internal Server Error"
             empty_state).
  - reflexivity.
  - simpl. tauto.
  - reflexivity.
  - reflexivity.
  - reflexivity.
  - simpl. lia.
Defined.

Lemma verb_unreadable_body_witness :
  deleteAsync true JSON_parse_fragment JSON_stringify_none
              (fetch_settles (Normal response_200_unreadable)) "/items/7" JNull
              empty_state =
    let e := mkObj AppError [("body", body_fault); ("headers", JNull)] in
    (Normal (mkResult false JNull (JRef 0%nat)),
     mkState [e] [] [mkLog (JRef 0%nat) (Some e)]).
Proof.
  rewrite (verb_unreadable_body true JSON_parse_fragment JSON_stringify_none
             (fetch_settles (Normal response_200_unreadable)) deleteAsync
             Methods.Delete "/items/7" JNull JUndefined response_200_unreadable
             body_fault empty_state).
  - reflexivity.
  - simpl. tauto.
  - reflexivity.
  - reflexivity.
  - reflexivity.
  - reflexivity.
Defined.

Lemma failed_verb_hides_generic_body_witness :
  exists l o,
    heap (snd (postAsync false JSON_parse_fragment JSON_stringify_none
                 (fetch_settles (Throw network_fault)) "/items" JNull empty_state))
      !! l = Some o /\
    prop_get "body" (props o) = JString "Technical error".
Proof.
  pose (e := mkObj AppError [("body", JString "Technical error"); ("headers", JNull)]).
  destruct (failed_verb_hides_generic_body JSON_parse_fragment JSON_stringify_none
              (fetch_settles (Throw network_fault)) postAsync Methods.Post
              "/items" JNull JUndefined empty_state
              (mkState [e] [] [mkLog (JRef 0%nat) (Some e)])
              (mkResult false JNull (JRef 0%nat)))
    as (l & o & Herr & Hl & _ & Hbody).
  - simpl. tauto.
  - reflexivity.
  - reflexivity.
  - reflexivity.
  - exists l, o. split; [exact Hl|]. apply Hbody.
    simpl in Herr. inversion Herr; subst. vm_compute in Hl.
    inversion Hl; subst. reflexivity.
Defined.

Lemma getAsync_without_query_witness :
  getAsync false JSON_parse_fragment (fetch_settles (Normal response_201))
           "/items/7" JUndefined JUndefined empty_state =
    (Normal (JObject [("id", JNumber 7)]), empty_state).
Proof.
  rewrite (getAsync_without_query false JSON_parse_fragment
             (fetch_settles (Normal response_201)) "/items/7" JUndefined JUndefined
             response_201 body_201 empty_state).
  - reflexivity.
  - reflexivity.
  - reflexivity.
  - reflexivity.
Defined.

Lemma query_request_url_witness :
  fst (query JSON_parse_fragment (fetch_only "/items?" (Normal response_201))
             "/items" (JRef 0%nat) JUndefined (mkState [blank_query] [] [])) =
    Normal (mkAppResponse (JObject [("id", JNumber 7)]) (JObject [])).
Proof.
  destruct (query_request_url JSON_parse_fragment
              (fetch_only "/items?" (Normal response_201)) "/items" 0%nat
              JUndefined (mkState [blank_query] [] []) blank_query
              eq_refl eq_refl) as [Hrun Hblank].
  rewrite Hrun, Hblank.
  - reflexivity.
  - intros k v [E|[E|[]]]; inversion E; reflexivity.
Defined.

Lemma rejected_class_tells_status_witness :
  exists o,
    heap (snd (handleResponse JSON_parse_fragment response_404 empty_state))
      !! 0%nat = Some o /\
    class o = NotFoundError.
Proof.
  destruct (rejected_class_tells_status JSON_parse_fragment response_404 body_404
              empty_state
              (snd (handleResponse JSON_parse_fragment response_404 empty_state))
              (JRef 0%nat) eq_refl eq_refl)
    as (o & _ & Hl & _ & _ & _ & _ & Hclass & _).
  exists o. split; [exact Hl|]. now apply Hclass.
Defined.

Lemma buildQueryParams_keeps_empty_witness :
  fst (buildQueryParams (JRef 0%nat) false (mkState [blank_query] [] [])) =
    Normal "name=&page=undefined".
Proof.
  destruct (buildQueryParams_keeps_empty 0%nat (mkState [blank_query] [] [])
              blank_query eq_refl eq_refl) as [Hrun _].
  rewrite Hrun. reflexivity.
Defined.

Lemma addAuthorization_sets_witness :
  exists o',
    heap (snd (addAuthorization (JRef 0%nat) AuthorizationType.Bearer "abc"
                 one_headers)) !! 0%nat = Some o' /\
    prop_get "Authorization" (props o') = JString "bearer abc" /\
    prop_get "Accept" (props o') = JString "application/json".
Proof.
  destruct (addAuthorization_sets 0%nat AuthorizationType.Bearer "abc"
              one_headers headers_object eq_refl)
    as (o' & Hrun & _ & Hset & Hkept & _).
  exists o'. rewrite Hrun. split; [reflexivity|]. split; [exact Hset|].
  rewrite Hkept; [reflexivity|discriminate].
Defined.

Lemma interceptError_not_an_object_witness :
  interceptError false network_fault empty_state =
    (Normal (mkResult false JNull network_fault),
     mkState [] [] [mkLog network_fault None]).
Proof.
  exact (interceptError_not_an_object false network_fault empty_state
           eq_refl eq_refl).
Defined.

Lemma interceptError_nullish_witness :
  exists message,
    interceptError false JUndefined empty_state =
      (Throw (TypeError message), empty_state).
Proof.
  exact (proj1 (interceptError_nullish JUndefined empty_state eq_refl)).
Defined.

Lemma interceptError_twice_witness :
  navigations
    (snd (interceptError true (JRef 0%nat)
            (snd (interceptError true (JRef 0%nat)
                    (one_error UnauthorizedError))))) = ["/"; "/"].
Proof.
  destruct (interceptError_twice true 0%nat (one_error UnauthorizedError)
              _ eq_refl) as (_ & _ & _ & Hnav).
  exact Hnav.
Defined.

Lemma readHeaders_lookup_witness :
  exists fields,
    readHeaders proto_headers = JObject fields /\
    prop_get "etag" fields = JString "2" /\
    prop_has "__proto__" fields = false.
Proof.
  destruct (readHeaders_lookup proto_headers)
    as (fields & Hrun & _ & _ & Hproto & Hlast).
  exists fields. split; [exact Hrun|]. split; [|exact Hproto].
  apply (Hlast "etag" "2" [("etag", "1"); ("__proto__", "x"); ("vary", "a")] []).
  - reflexivity.
  - intros [].
  - discriminate.
Defined.

Lemma buildQueryParams_alphabet_witness :
  string_forall query_string_char "page=2&q=a+b&flag=false&1=7&tags=x&tags=null"
    = true.
Proof.
  apply (buildQueryParams_alphabet (JRef 0%nat) true (mkState [mixed_query] [] [])
           (snd (buildQueryParams (JRef 0%nat) true (mkState [mixed_query] [] [])))).
  reflexivity.
Defined.

Lemma addAuthorization_again_witness :
  exists o',
    heap (snd ((addAuthorization (JRef 0%nat) AuthorizationType.Basic "abc" ;;
                addAuthorization (JRef 0%nat) AuthorizationType.Bearer "xyz")%js
                 one_headers)) !! 0%nat = Some o' /\
    props o' = [("Accept", JString "application/json");
                ("Authorization", JString "bearer xyz")].
Proof.
  destruct (addAuthorization_again 0%nat AuthorizationType.Basic "abc"
              AuthorizationType.Bearer "xyz" one_headers headers_object eq_refl)
    as (o' & Hboth & Hsecond & _).
  - repeat constructor; simpl; intuition discriminate.
  - exists o'. rewrite Hboth. split; [reflexivity|].
    vm_compute in Hsecond. inversion Hsecond. reflexivity.
Defined.

Lemma addAuthorization_no_object_witness :
  exists message,
    addAuthorization JUndefined AuthorizationType.Bearer "abc" empty_state =
      (Throw (TypeError message), empty_state).
Proof.
  exact (addAuthorization_no_object JUndefined AuthorizationType.Bearer "abc"
           empty_state I).
Defined.

Lemma verb_serialization_fault_witness :
  postAsync false JSON_parse_fragment (JSON_stringify_throws cyclic_fault)
            (fetch_settles (Normal response_201)) "/items" (JRef 0%nat)
            cyclic_body =
    (Normal (mkResult false JNull cyclic_fault),
     mkState (heap cyclic_body) [] [mkLog cyclic_fault None]).
Proof.
  exact (proj2 (verb_serialization_fault false JSON_parse_fragment
                  (JSON_stringify_throws cyclic_fault)
                  (fetch_settles (Normal response_201)) postAsync Methods.Post
                  "/items" (JRef 0%nat) cyclic_fault cyclic_body
                  (or_introl eq_refl) eq_refl eq_refl eq_refl)).
Defined.
